(** * SeoEDGE — the Search Console ingestion service

    A shallow embedding of [src/services/ingestion/gsc.ts]: the row
    normaliser [normalizeRow], the paginated fetcher
    [fetchGSCDataForDate], the batch persister
    [writeToFirestoreInBatches] and the orchestrator [ingestGSCData],
    together with the parts of the JavaScript platform they call
    ([String] methods, [URL] and [URLSearchParams]).

    JavaScript strings are modelled as Rocq [string]s, read as the
    UTF-8 bytes of the text.  Case mapping is the ASCII one: it is
    what JavaScript does on ASCII text, and bytes above 127 are left
    as they are.  Numbers that count (rows, offsets, attempts) are
    integers; the measures of a row are rationals.  Promises are
    modelled by their outcome, and the collaborators the service
    awaits (the API client, the store) by state machines. *)

From Stdlib Require Import String Ascii List Bool Arith ZArith QArith Lia.
From Stdlib Require Import DecimalString.
Import ListNotations.

Local Open Scope list_scope.
Local Open Scope string_scope.

(** ** JavaScript [String] methods used by the service *)

Module JS.

Definition code (c : ascii) : nat := nat_of_ascii c.

Definition between (lo hi : nat) (c : ascii) : bool :=
  (lo <=? code c)%nat && (code c <=? hi)%nat.

Definition isUpper : ascii -> bool := between 65 90.
Definition isLower : ascii -> bool := between 97 122.
Definition isDigit : ascii -> bool := between 48 57.
Definition isAlpha (c : ascii) : bool := isUpper c || isLower c.
Definition isAlnum (c : ascii) : bool := isAlpha c || isDigit c.

Definition lowerChar (c : ascii) : ascii :=
  if isUpper c then ascii_of_nat (code c + 32) else c.

Definition upperChar (c : ascii) : ascii :=
  if isLower c then ascii_of_nat (code c - 32) else c.

Fixpoint mapChars (f : ascii -> ascii) (s : string) : string :=
  match s with
  | EmptyString => EmptyString
  | String c r => String (f c) (mapChars f r)
  end.

(** [s.toLowerCase()] and [s.toUpperCase()]. *)
Definition toLowerCase : string -> string := mapChars lowerChar.
Definition toUpperCase : string -> string := mapChars upperChar.

(** [s.startsWith(p)]. *)
Definition startsWith (s p : string) : bool := prefix p s.

Fixpoint lastChar (s : string) : option ascii :=
  match s with
  | EmptyString => None
  | String c EmptyString => Some c
  | String _ r => lastChar r
  end.

(** [s.endsWith("/")]. *)
Definition endsWithSlash (s : string) : bool :=
  match lastChar s with
  | Some c => Ascii.eqb c "/"
  | None => false
  end.

(** [s.slice(0, -1)]. *)
Definition sliceDropLast (s : string) : string :=
  substring 0 (String.length s - 1) s.

(** [s || d] on a value that is [undefined], [null] or a string: the
    empty string is falsy as well. *)
Definition orElse (v : option string) (d : string) : string :=
  match v with
  | Some EmptyString => d
  | Some s => s
  | None => d
  end.

Fixpoint forallChars (p : ascii -> bool) (s : string) : bool :=
  match s with
  | EmptyString => true
  | String c r => p c && forallChars p r
  end.

Fixpoint existsChar (p : ascii -> bool) (s : string) : bool :=
  match s with
  | EmptyString => false
  | String c r => p c || existsChar p r
  end.

(** The part of [s] before the first character satisfying [p], and the
    part from that character on. *)
Fixpoint span (p : ascii -> bool) (s : string) : string * string :=
  match s with
  | EmptyString => (EmptyString, EmptyString)
  | String c r =>
      if p c then (EmptyString, s)
      else let (a, b) := span p r in (String c a, b)
  end.

(** [s.split(sep)] for a one-character separator: always at least one
    piece. *)
Fixpoint split (sep : ascii) (s : string) : list string :=
  match s with
  | EmptyString => [EmptyString]
  | String c r =>
      if Ascii.eqb c sep then EmptyString :: split sep r
      else match split sep r with
           | [] => [String c EmptyString]
           | x :: xs => String c x :: xs
           end
  end.

Fixpoint dropWhile (p : ascii -> bool) (s : string) : string :=
  match s with
  | EmptyString => EmptyString
  | String c r => if p c then dropWhile p r else s
  end.

Fixpoint filterChars (p : ascii -> bool) (s : string) : string :=
  match s with
  | EmptyString => EmptyString
  | String c r => if p c then String c (filterChars p r) else filterChars p r
  end.

Definition rev (s : string) : string :=
  string_of_list_ascii (List.rev (list_ascii_of_string s)).

Definition isChar (x c : ascii) : bool := Ascii.eqb c x.

Definition oneOf (cs : string) (c : ascii) : bool := existsChar (Ascii.eqb c) cs.

(** An integer as a template literal prints it. *)
Definition numberToString (n : Z) : string :=
  NilZero.string_of_int (Z.to_int n).

End JS.

(** ** The platform's [URL] and [URLSearchParams]

    [new URL(s)] is the URL parser of the WHATWG URL Standard, called
    without a base URL.  It is not code of this repository.  The model
    below follows the standard's state machine on the inputs listed
    here and is exact on them:

    - every input without a scheme (scheme start / scheme / no scheme
      states): parsing fails;
    - inputs with one of the special schemes [http], [https], [ws],
      [wss], [ftp], written with letters, digits and the characters
      [-._~:/?#@!$&()*+,;=%] only, whose host is a plain ASCII domain
      (letters, digits, [-], [.], [_]; no [xn--] label; last label
      not starting with a digit), and whose search parameters, once
      percent-decoded, hold ASCII bytes only.

    On every other input (other schemes, IPv4/IPv6 literals,
    internationalised or percent-encoded hosts, characters that the
    parser would percent-encode, escapes of non-ASCII bytes in the
    query) the model does not answer: the URL object that the platform
    builds, with its list of search parameters, is taken as a
    parameter, [beyond].  Credentials, port and fragment are parsed
    and then left out of the record: the service reads none of
    them. *)

Module URL.

(** What the getters [protocol], [hostname] and [pathname] return, and
    the URL's query ([None] is the standard's null query). *)
Record t : Type := mk {
  protocol : string;
  hostname : string;
  pathname : string;
  query : option string
}.

(** The [search] getter: empty for a null or empty query, otherwise
    ["?"] followed by the query. *)
Definition search (u : t) : string :=
  match query u with
  | None => ""
  | Some EmptyString => ""
  | Some q => "?" ++ q
  end.

Definition isC0OrSpace (c : ascii) : bool := (JS.code c <=? 32)%nat.

Definition isTabOrNewline (c : ascii) : bool :=
  (JS.code c =? 9)%nat || (JS.code c =? 10)%nat || (JS.code c =? 13)%nat.

(** Leading and trailing C0 control or space are removed, then every
    ASCII tab or newline. *)
Definition trimC0Space (s : string) : string :=
  JS.rev (JS.dropWhile isC0OrSpace (JS.rev (JS.dropWhile isC0OrSpace s))).

Definition removeTabNewline (s : string) : string :=
  JS.filterChars (fun c => negb (isTabOrNewline c)) s.

Definition isSchemeChar (c : ascii) : bool :=
  JS.isAlnum c || JS.oneOf "+-." c.

(** Scheme state: the scheme, lower-cased, and what follows the [:].
    Without a base URL anything else is a failure. *)
Fixpoint schemeState (acc s : string) : option (string * string) :=
  match s with
  | EmptyString => None
  | String c r =>
      if isSchemeChar c then
        schemeState (acc ++ String (JS.lowerChar c) EmptyString) r
      else if JS.isChar ":" c then Some (acc, r)
      else None
  end.

(** Scheme start state. *)
Definition schemeStart (s : string) : option (string * string) :=
  match s with
  | EmptyString => None
  | String c r =>
      if JS.isAlpha c then schemeState (String (JS.lowerChar c) EmptyString) r
      else None
  end.

Definition isSpecialNonFile (sch : string) : bool :=
  existsb (String.eqb sch) ["http"; "https"; "ws"; "wss"; "ftp"].

(** Characters on which the modelled states neither percent-encode nor
    branch in a way left out here. *)
Definition isPlain (c : ascii) : bool :=
  JS.isAlnum c || JS.oneOf "-._~:/?#@!$&()*+,;=%" c.

Definition isDomainChar (c : ascii) : bool :=
  JS.isAlnum c || JS.oneOf "-._" c.

(** The host's last label, a single trailing dot set aside. *)
Definition lastLabel (h : string) : string :=
  match List.rev (JS.split "." h) with
  | EmptyString :: l :: _ => l
  | l :: _ => l
  | [] => EmptyString
  end.

Definition startsWithDigit (s : string) : bool :=
  match s with
  | String c _ => JS.isDigit c
  | EmptyString => false
  end.

(** Hosts on which the host parser only lower-cases. *)
Definition plainDomain (h : string) : bool :=
  negb (String.eqb h "")
  && JS.forallChars isDomainChar h
  && negb (existsb (fun l => JS.startsWith (JS.toLowerCase l) "xn--")
             (JS.split "." h))
  && negb (startsWithDigit (lastLabel h)).

(** Authority state: with credentials present, the host and port are
    what follows the last [@], and must not be empty. *)
Definition afterCredentials (authority : string) : option string :=
  match List.rev (JS.split "@" authority) with
  | [] => None
  | [hp] => Some hp
  | EmptyString :: _ => None
  | hp :: _ => Some hp
  end.

Fixpoint decimal (acc : N) (s : string) : N :=
  match s with
  | EmptyString => acc
  | String c r => decimal (acc * 10 + N.of_nat (JS.code c - 48)) r
  end.

(** Port state: decimal digits only, at most 65535; an empty port is
    accepted. *)
Definition portOk (p : string) : bool :=
  JS.forallChars JS.isDigit p && (decimal 0 p <=? 65535)%N.

Definition isSingleDot (seg : string) : bool :=
  existsb (String.eqb (JS.toLowerCase seg)) ["."; "%2e"].

Definition isDoubleDot (seg : string) : bool :=
  existsb (String.eqb (JS.toLowerCase seg)) [".."; ".%2e"; "%2e."; "%2e%2e"].

(** Path state, one [/]-separated segment at a time; the last segment
    is the one that is ended by something other than [/]. *)
Fixpoint pathState (segs path : list string) : list string :=
  match segs with
  | [] => path
  | seg :: rest =>
      let atEnd := match rest with [] => true | _ => false end in
      let path' :=
        if isDoubleDot seg then
          (if atEnd then (removelast path ++ [EmptyString])%list
           else removelast path)
        else if isSingleDot seg then
          (if atEnd then (path ++ [EmptyString])%list else path)
        else (path ++ [seg])%list in
      pathState rest path'
  end.

(** The path serialiser behind the [pathname] getter. *)
Definition serializePath (path : list string) : string :=
  fold_right (fun seg out => "/" ++ seg ++ out) EmptyString path.

Definition dropColon (s : string) : string :=
  match s with
  | String ":" r => r
  | _ => s
  end.

Definition dropSlash (s : string) : string :=
  match s with
  | String "/" r => r
  | _ => s
  end.

Definition isHexDigit (c : ascii) : bool :=
  JS.isDigit c || JS.between 65 70 c || JS.between 97 102 c.

(** What the model says of an input: the parser fails, or it returns
    a URL, or the input is outside the modelled ones. *)
Inductive outcome : Type :=
| Failure
| Parsed (u : t)
| Unmodelled.

Definition parse (input : string) : outcome :=
  let s := removeTabNewline (trimC0Space input) in
  match schemeStart s with
  | None => Failure
  | Some (sch, rest) =>
      if isSpecialNonFile sch && JS.forallChars isPlain rest then
        let afterSlashes := JS.dropWhile (JS.isChar "/") rest in
        let (authority, r1) := JS.span (JS.oneOf "/?#") afterSlashes in
        match afterCredentials authority with
        | None => Failure
        | Some hostport =>
            let (h, p) := JS.span (JS.isChar ":") hostport in
            let (pathPart, r2) := JS.span (JS.oneOf "?#") r1 in
            let q := match r2 with
                     | String "?" r3 => Some (fst (JS.span (JS.isChar "#") r3))
                     | _ => None
                     end in
            if String.eqb h "" then Failure
            else if negb (plainDomain h) then Unmodelled
            else if negb (portOk (dropColon p)) then Failure
            else Parsed {| protocol := sch ++ ":";
                           hostname := JS.toLowerCase h;
                           pathname :=
                             serializePath
                               (pathState (JS.split "/" (dropSlash pathPart)) []);
                           query := q |}
        end
      else Unmodelled
  end.

End URL.

(** [URLSearchParams]: the list of name-value pairs behind
    [url.searchParams], with the [application/x-www-form-urlencoded]
    parser and serialiser of the URL Standard. *)

Module URLSearchParams.

Definition plusToSpace (s : string) : string :=
  JS.mapChars (fun c => if JS.isChar "+" c then " "%char else c) s.

Definition hexValue (c : ascii) : nat :=
  if JS.isDigit c then JS.code c - 48
  else if JS.between 65 70 c then JS.code c - 55
  else JS.code c - 87.

(** Percent-decoding: [%XX] with two hexadecimal digits is the byte
    they denote, any other [%] stays. *)
Fixpoint percentDecode (s : string) : string :=
  match s with
  | EmptyString => EmptyString
  | String c r1 =>
      if JS.isChar "%" c then
        match r1 with
        | String a (String b r) =>
            if URL.isHexDigit a && URL.isHexDigit b
            then String (ascii_of_nat (16 * hexValue a + hexValue b))
                   (percentDecode r)
            else String c (percentDecode r1)
        | _ => String c (percentDecode r1)
        end
      else String c (percentDecode r1)
  end.

(** A name or a value: every [+] is a space, then the percent
    escapes are decoded; the bytes are then decoded as UTF-8, which
    changes nothing when all of them are ASCII. *)
Definition decode (s : string) : string := percentDecode (plusToSpace s).

Definition isAscii (s : string) : bool :=
  JS.forallChars (fun c => (JS.code c <? 128)%nat) s.

(** The decoded names and values hold ASCII bytes only. *)
Definition asciiOnly (l : list (string * string)) : bool :=
  forallb (fun p => isAscii (fst p) && isAscii (snd p)) l.

Definition parseSequence (sq : string) : list (string * string) :=
  match sq with
  | EmptyString => []
  | _ =>
      let (name, r) := JS.span (JS.isChar "=") sq in
      let value := match r with String _ v => v | EmptyString => EmptyString end in
      [(decode name, decode value)]
  end.

(** The urlencoded parser: the sequences between [&], the empty ones
    dropped, each split at its first [=]. *)
Definition parse (q : string) : list (string * string) :=
  flat_map parseSequence (JS.split "&" q).

Definition hexDigit (n : nat) : ascii :=
  if (n <? 10)%nat then ascii_of_nat (48 + n) else ascii_of_nat (55 + n).

(** The urlencoded byte serialiser: letters, digits and [*-._] stay,
    a space becomes [+], every other byte becomes [%XX]. *)
Definition encodeByte (c : ascii) : string :=
  if JS.isAlnum c || JS.oneOf "*-._" c then String c EmptyString
  else if JS.isChar " " c then "+"
  else String "%" (String (hexDigit (JS.code c / 16))
                     (String (hexDigit (JS.code c mod 16)) EmptyString)).

Fixpoint encode (s : string) : string :=
  match s with
  | EmptyString => EmptyString
  | String c r => encodeByte c ++ encode r
  end.

Fixpoint serialize (l : list (string * string)) : string :=
  match l with
  | [] => EmptyString
  | [(n, v)] => encode n ++ "=" ++ encode v
  | (n, v) :: r => encode n ++ "=" ++ encode v ++ "&" ++ serialize r
  end.

End URLSearchParams.

(** A [URL] object together with its live [searchParams] list. *)
Record URLObject : Type := mkURLObject {
  url : URL.t;
  searchParams : list (string * string)
}.

Section Platform.

(** The platform's URL object for the inputs that the model does not
    answer ([None] when the constructor throws). *)
Variable beyond : string -> option URLObject.

(** [new URL(s)]: [None] when the constructor throws.  The
    [searchParams] list is the URL's query, parsed. *)
Definition newURL (s : string) : option URLObject :=
  match URL.parse s with
  | URL.Failure => None
  | URL.Parsed u =>
      let l := match URL.query u with
               | Some q => URLSearchParams.parse q
               | None => []
               end in
      if URLSearchParams.asciiOnly l
      then Some {| url := u; searchParams := l |}
      else beyond s
  | URL.Unmodelled => beyond s
  end.

End Platform.

(** [url.searchParams.delete(name)]: every pair of that name goes, and
    the URL's query is set to the serialisation of what is left (null
    when nothing is left). *)
Definition searchParams_delete (name : string) (o : URLObject) : URLObject :=
  let l := filter (fun p => negb (String.eqb (fst p) name)) (searchParams o) in
  {| url := {| URL.protocol := URL.protocol (url o);
               URL.hostname := URL.hostname (url o);
               URL.pathname := URL.pathname (url o);
               URL.query := match URLSearchParams.serialize l with
                            | EmptyString => None
                            | q => Some q
                            end |};
     searchParams := l |}.

(** [url.searchParams.forEach(callback)]: Web IDL iterates by index
    over the live list; the callback receives the value, then the
    key.  [fuel] bounds the number of callback invocations. *)
Fixpoint forEachFrom (fuel i : nat)
    (callback : string -> string -> URLObject -> URLObject)
    (o : URLObject) : URLObject :=
  match fuel with
  | O => o
  | S fuel' =>
      match nth_error (searchParams o) i with
      | None => o
      | Some (key, value) =>
          forEachFrom fuel' (S i) callback (callback value key o)
      end
  end.

(** The callbacks of this service only delete pairs, so the list never
    grows and its initial length bounds the number of invocations (see
    [forEachFrom_fuel]). *)
Definition searchParams_forEach
    (callback : string -> string -> URLObject -> URLObject)
    (o : URLObject) : URLObject :=
  forEachFrom (List.length (searchParams o)) 0 callback o.

(** ** Type definitions of [gsc.ts] *)

(** A row of the Search Console API: every member is optional, and a
    key may be [null]. *)
Record GscApiRow : Type := mkRow {
  keys : option (list (option string));
  clicks : option Q;
  impressions : option Q;
  ctr : option Q;
  position : option Q
}.

(** [FieldValue.serverTimestamp()]: a sentinel that the store replaces
    at commit time. *)
Inductive FieldValue : Type := serverTimestamp.

(** The Firestore document schema. *)
Record GscFirestoreDoc : Type := mkDoc {
  siteUrl : string;
  normalizedUrl : string;
  query : string;
  date : string;
  doc_impressions : Q;
  doc_clicks : Q;
  doc_position : Q;
  doc_ctr : Q;
  device : string;
  country : string;
  searchAppearance : string;
  ingestedAt : FieldValue
}.

(** A destructured array element. *)
Inductive Key : Type :=
| Undefined
| Null
| Str (s : string).

(** [const [k0, k1, ...] = arr]: the element at position [i], or
    [undefined] past the end. *)
Definition keyAt (ks : list (option string)) (i : nat) : Key :=
  match nth_error ks i with
  | None => Undefined
  | Some None => Null
  | Some (Some s) => Str s
  end.

(** [k || d]. *)
Definition keyOr (k : Key) (d : string) : string :=
  match k with
  | Str s => JS.orElse (Some s) d
  | _ => d
  end.

(** [n || 0] on an optional number. *)
Definition numOr0 (n : option Q) : Q :=
  match n with
  | Some q => q
  | None => 0%Q
  end.

(** The [forEach] callback of [normalizeRow]. *)
Definition dropUtm (_ key : string) (o : URLObject) : URLObject :=
  if JS.startsWith (JS.toLowerCase key) "utm_" then searchParams_delete key o
  else o.

(** ** Data transformation: [normalizeRow] *)

Section Normalizer.

Variable beyond : string -> option URLObject.

(** The [try] block of [normalizeRow] and its [catch]: the canonical
    URL computed from [finalPage]. *)
Definition canonicalUrl (finalPage : string) : string :=
  match newURL beyond finalPage with
  | Some u0 =>
      let u := searchParams_forEach dropUtm u0 in
      let path := URL.pathname (url u) in
      let path :=
        if (1 <? String.length path)%nat && JS.endsWithSlash path
        then JS.sliceDropLast path else path in
      URL.protocol (url u) ++ "//" ++ JS.toLowerCase (URL.hostname (url u))
        ++ path ++ URL.search (url u)
  | None => JS.orElse (Some finalPage) "INVALID_URL"
  end.

Definition normalizeRow (rawRow : GscApiRow) (siteUrl date : string)
    : GscFirestoreDoc :=
  let ks := match keys rawRow with Some l => l | None => [] end in
  let page := keyAt ks 0 in
  let query := keyAt ks 1 in
  let device := keyAt ks 2 in
  let country := keyAt ks 3 in
  let searchAppearance := keyAt ks 4 in
  let finalPage := keyOr page "" in
  {| siteUrl := siteUrl;
     normalizedUrl := canonicalUrl finalPage;
     query := keyOr query "";
     date := date;
     doc_impressions := numOr0 (impressions rawRow);
     doc_clicks := numOr0 (clicks rawRow);
     doc_position := numOr0 (position rawRow);
     doc_ctr := numOr0 (ctr rawRow);
     device := keyOr device "UNKNOWN";
     country := JS.toUpperCase (keyOr country "zzz");
     searchAppearance := keyOr searchAppearance "NONE";
     ingestedAt := serverTimestamp |}.

End Normalizer.

(** The second copy of the service ([src/unnamed/part_002], lines
    116-404).  Its fetcher, persister and orchestrator are the same
    text as in [gsc.ts]; its [normalizeRow] destructures with defaults
    and treats the country differently. *)

Module Part002.

(** [device] and [searchAppearance] are stored as destructured: a
    [null] key stays [null] ([None]). *)
Record Doc : Type := mkDoc {
  siteUrl : string;
  normalizedUrl : string;
  query : string;
  date : string;
  doc_impressions : Q;
  doc_clicks : Q;
  doc_position : Q;
  doc_ctr : Q;
  device : option string;
  country : string;
  searchAppearance : option string;
  ingestedAt : FieldValue
}.

(** [const [.., k = d, ..] = arr]: the default replaces [undefined]
    only. *)
Definition withDefault (k : Key) (d : string) : Key :=
  match k with
  | Undefined => Str d
  | _ => k
  end.

Definition stored (k : Key) : option string :=
  match k with
  | Str s => Some s
  | _ => None
  end.

Section Normalizer.

Variable beyond : string -> option URLObject.

Definition normalizeRow (rawRow : GscApiRow) (siteUrl date : string) : Doc :=
  let ks := match keys rawRow with Some l => l | None => [] end in
  let page := withDefault (keyAt ks 0) "" in
  let query := withDefault (keyAt ks 1) "" in
  let device := withDefault (keyAt ks 2) "UNKNOWN" in
  let country := withDefault (keyAt ks 3) "UNKNOWN" in
  let searchAppearance := withDefault (keyAt ks 4) "NONE" in
  {| siteUrl := siteUrl;
     normalizedUrl := canonicalUrl beyond (keyOr page "");
     query := keyOr query "";
     date := date;
     doc_impressions := numOr0 (impressions rawRow);
     doc_clicks := numOr0 (clicks rawRow);
     doc_position := numOr0 (position rawRow);
     doc_ctr := numOr0 (ctr rawRow);
     device := stored device;
     country := match country with
                | Str (String c r) => JS.toUpperCase (String c r)
                | _ => "UNKNOWN"
                end;
     searchAppearance := stored searchAppearance;
     ingestedAt := serverTimestamp |}.

End Normalizer.

End Part002.

(** ** Data fetching: [fetchGSCDataForDate] *)

(** The body of a [searchanalytics.query] request. *)
Record Request : Type := mkRequest {
  rq_siteUrl : string;
  rq_startDate : string;
  rq_endDate : string;
  rq_dimensions : list string;
  rq_rowLimit : Z;
  rq_startRow : Z;
  rq_type : string
}.

(** What [await gscClient.searchanalytics.query(request)] does: it
    resolves to a response whose [data.rows] may be missing, or it
    rejects. *)
Inductive QueryOutcome (ApiError : Type) : Type :=
| Resolved (rows : option (list GscApiRow))
| Rejected (error : ApiError).

Arguments Resolved {ApiError} rows.
Arguments Rejected {ApiError} error.

(** The promise returned by [fetchGSCDataForDate]: fulfilled with the
    rows, or rejected with [new Error(message)]. *)
Inductive FetchResult : Type :=
| Fetched (rows : list GscApiRow)
| FetchFailed (message : string).

Definition rowLimit : Z := 25000.
Definition maxRetries : Z := 5.
Definition initialDelay : Z := 1000.

Definition fetchRequest (siteUrl date : string) (startRow : Z) : Request :=
  {| rq_siteUrl := siteUrl;
     rq_startDate := date;
     rq_endDate := date;
     rq_dimensions := ["page"; "query"; "device"; "country"; "searchAppearance"];
     rq_rowLimit := rowLimit;
     rq_startRow := startRow;
     rq_type := "web" |}.

(** The message of the error thrown when the retries are used up. *)
Definition fetchErrorMessage (date : string) : string :=
  "Failed to fetch GSC data for " ++ date ++ " after "
    ++ JS.numberToString maxRetries ++ " attempts.".

Section Fetcher.

(** The API client is a state machine: a query yields an outcome and
    the client's next state. *)
Variable Client : Type.
Variable ApiError : Type.
Variable query : Client -> Request -> QueryOutcome ApiError * Client.

(** The [while (hasMore)] loop, one iteration per unit of [fuel]; a
    recursive call is an iteration entered with [hasMore] true.  [log]
    collects the requests issued, in order.  The back-off delay
    between a failure and the retry only passes time and is not
    represented.  [None]: the loop is still running when the fuel is
    used up. *)
Fixpoint fetchLoop (fuel : nat) (siteUrl date : string)
    (client : Client) (allRows : list GscApiRow) (startRow attempt : Z)
    (log : list Request)
    : option (FetchResult * Client * list Request) :=
  match fuel with
  | O => None
  | S fuel' =>
      let request := fetchRequest siteUrl date startRow in
      let log' := (log ++ [request])%list in
      match query client request with
      | (Resolved (Some (r :: rs)), client') =>
          let rows := r :: rs in
          let allRows' := (allRows ++ rows)%list in
          let startRow' := (startRow + Z.of_nat (List.length rows))%Z in
          if (Z.of_nat (List.length rows) =? rowLimit)%Z then
            fetchLoop fuel' siteUrl date client' allRows' startRow' 0%Z log'
          else Some (Fetched allRows', client', log')
      | (Resolved _, client') => Some (Fetched allRows, client', log')
      | (Rejected _, client') =>
          if (attempt <? maxRetries)%Z then
            fetchLoop fuel' siteUrl date client' allRows startRow
              (attempt + 1)%Z log'
          else Some (FetchFailed (fetchErrorMessage date), client', log')
      end
  end.

Definition fetchGSCDataForDate (fuel : nat) (client : Client)
    (siteUrl date : string)
    : option (FetchResult * Client * list Request) :=
  fetchLoop fuel siteUrl date client [] 0%Z 0%Z [].

End Fetcher.

(** ** Data loading: [writeToFirestoreInBatches] *)

Definition batchSize : nat := 500.

(** The calls made on the Firestore handle and on the batches it
    creates. *)
Inductive StoreCall : Type :=
| CallBatch
| CallCollection (collectionPath : string)
| CallDoc
| CallSet (doc : GscFirestoreDoc)
| CallCommit (writes : list GscFirestoreDoc).

Section Persister.

(** The store is a state machine: committing a batch either succeeds
    ([None]) or rejects with an error, and yields the next state. *)
Variable Store : Type.
Variable StoreError : Type.
Variable commit : Store -> list GscFirestoreDoc -> option StoreError * Store.

(** The calls of [chunk.forEach(doc => ...)]. *)
Definition stageCalls (collectionPath : string) (chunk : list GscFirestoreDoc)
    : list StoreCall :=
  flat_map (fun doc => [CallCollection collectionPath; CallDoc; CallSet doc])
    chunk.

(** [documents.slice(i, i + batchSize)]. *)
Definition slice (documents : list GscFirestoreDoc) (i : nat)
    : list GscFirestoreDoc :=
  firstn batchSize (skipn i documents).

(** The [for (let i = 0; i < documents.length; i += batchSize)] loop.
    The result is the error thrown, if any, the store and the calls
    made.  [None]: still running when the fuel is used up. *)
Fixpoint writeLoop (fuel : nat) (collectionPath : string)
    (documents : list GscFirestoreDoc) (i : nat) (db : Store)
    (calls : list StoreCall)
    : option (option StoreError * Store * list StoreCall) :=
  if (i <? List.length documents)%nat then
    match fuel with
    | O => None
    | S fuel' =>
        let chunk := slice documents i in
        let calls' :=
          (calls ++ CallBatch :: stageCalls collectionPath chunk
                 ++ [CallCommit chunk])%list in
        match commit db chunk with
        | (None, db') =>
            writeLoop fuel' collectionPath documents (i + batchSize) db' calls'
        | (Some error, db') => Some (Some error, db', calls')
        end
    end
  else Some (None, db, calls).

(** Every iteration advances [i] by [batchSize], so the number of
    documents is fuel enough (see [writeLoop_total]). *)
Definition writeToFirestoreInBatches (db : Store) (collectionPath : string)
    (documents : list GscFirestoreDoc)
    : option (option StoreError * Store * list StoreCall) :=
  writeLoop (List.length documents) collectionPath documents 0 db [].

End Persister.

(** ** Orchestration: [ingestGSCData] *)

Record IngestionResult : Type := mkResult {
  success : bool;
  totalRowsWritten : Z
}.

(** What the [catch] of the per-day [try] block receives. *)
Inductive DayError (StoreError : Type) : Type :=
| FetchError (message : string)
| WriteError (error : StoreError).

Arguments FetchError {StoreError} message.
Arguments WriteError {StoreError} error.

(** How a day's [try] block ends: it adds [rows] to the total, or the
    error is caught and logged. *)
Inductive DayOutcome (StoreError : Type) : Type :=
| DayWritten (rows : nat)
| DayCaught (error : DayError StoreError).

Arguments DayWritten {StoreError} rows.
Arguments DayCaught {StoreError} error.

Definition collectionPath : string := "ingestion/gsc/daily".

Section Orchestrator.

Variable beyond : string -> option URLObject.

Variable Client : Type.
Variable ApiError : Type.
Variable query : Client -> Request -> QueryOutcome ApiError * Client.

Variable Store : Type.
Variable StoreError : Type.
Variable commit : Store -> list GscFirestoreDoc -> option StoreError * Store.

(** The platform's [Date].  A date is its time value, in milliseconds
    since the epoch: [new Date(s)] is [Date_parse s] ([None] for an
    Invalid Date) and [dt.toISOString().split('T')[0]] is
    [Date_isoDay dt], the UTC day.  [dt.setDate(dt.getDate() + 1)]
    moves [dt] to the same local time on the next calendar day of the
    process's time zone: the time value grows by the length of that
    local day, [Date_step dt] milliseconds (24 hours, or 23 or 25
    across a daylight-saving change). *)
Variable Date_parse : string -> option Z.
Variable Date_isoDay : Z -> string.
Variable Date_step : Z -> positive.

Definition Date_nextDay (dt : Z) : Z := (dt + Z.pos (Date_step dt))%Z.

(** The process-wide API client and store handle. *)
Record World : Type := mkWorld {
  gscClient : Client;
  db : Store
}.

(** The [try] block of one iteration, with its [catch].  [fuel] is
    passed to the fetcher. *)
Definition processDay (fuel : nat) (w : World) (siteUrl currentDate : string)
    : option (DayOutcome StoreError * World) :=
  match fetchGSCDataForDate Client ApiError query fuel (gscClient w)
          siteUrl currentDate with
  | None => None
  | Some (FetchFailed message, client', _) =>
      Some (DayCaught (FetchError message),
            {| gscClient := client'; db := db w |})
  | Some (Fetched rawRows, client', _) =>
      if (0 <? List.length rawRows)%nat then
        let normalizedRows :=
          map (fun row => normalizeRow beyond row siteUrl currentDate) rawRows in
        match writeToFirestoreInBatches Store StoreError commit (db w)
                collectionPath normalizedRows with
        | None => None
        | Some (None, db', _) =>
            Some (DayWritten (List.length normalizedRows),
                  {| gscClient := client'; db := db' |})
        | Some (Some error, db', _) =>
            Some (DayCaught (WriteError error),
                  {| gscClient := client'; db := db' |})
        end
      else Some (DayWritten 0, {| gscClient := client'; db := db w |})
  end.

(** The [for (dt = start; dt <= end; dt.setDate(dt.getDate() + 1))]
    loop; [days] bounds the number of iterations.  [None]: still
    running when [days] is used up, or a fetch still running when its
    fuel is. *)
Fixpoint ingestLoop (days fuel : nat) (siteUrl : string) (dt end_ : Z)
    (w : World) (totalRowsWritten : Z) : option (Z * World) :=
  if (dt <=? end_)%Z then
    match days with
    | O => None
    | S days' =>
        match processDay fuel w siteUrl (Date_isoDay dt) with
        | None => None
        | Some (DayWritten rows, w') =>
            ingestLoop days' fuel siteUrl (Date_nextDay dt) end_ w'
              (totalRowsWritten + Z.of_nat rows)%Z
        | Some (DayCaught _, w') =>
            ingestLoop days' fuel siteUrl (Date_nextDay dt) end_ w'
              totalRowsWritten
        end
    end
  else Some (totalRowsWritten, w).

Definition ingestGSCData (days fuel : nat) (w : World)
    (siteUrl startDate endDate : string)
    : option (IngestionResult * World) :=
  if String.eqb siteUrl "" || String.eqb startDate "" || String.eqb endDate ""
  then Some ({| success := false; totalRowsWritten := 0 |}, w)
  else
    match Date_parse startDate, Date_parse endDate with
    | Some start, Some end_ =>
        match ingestLoop days fuel siteUrl start end_ w 0%Z with
        | Some (total, w') =>
            Some ({| success := true; totalRowsWritten := total |}, w')
        | None => None
        end
    | _, _ =>
        (* a comparison with an Invalid Date is false: no iteration *)
        Some ({| success := true; totalRowsWritten := 0 |}, w)
    end.

End Orchestrator.

(** ** Test doubles

    Scripted collaborators in the style of the repository's jest
    mocks, used to run the service on concrete inputs. *)

Module Mock.

(** A raw row with the given page and the other keys of
    [normalize.test.ts]. *)
Definition pageRow (page : string) : GscApiRow :=
  {| keys := Some [Some page; Some "query"; Some "device"; Some "country";
                   Some "search"];
     clicks := Some 10%Q;
     impressions := Some 100%Q;
     ctr := Some (1 # 10)%Q;
     position := Some 1%Q |}.

(** A row that carries its page key only. *)
Definition pageOnlyRow (page : string) : GscApiRow :=
  {| keys := Some [Some page];
     clicks := Some 1%Q;
     impressions := Some 10%Q;
     ctr := None;
     position := None |}.

(** A platform that rejects every URL outside the modelled inputs. *)
Definition noURL : string -> option URLObject := fun _ => None.


(** An API client answering from a script, one outcome per call;
    with the script used up it rejects. *)
Definition Client : Type := list (QueryOutcome string).

Definition scripted (c : Client) (_ : Request)
    : QueryOutcome string * Client :=
  match c with
  | [] => (Rejected "no more responses", [])
  | o :: r => (o, r)
  end.

(** An API client that rejects every call. *)
Definition failing (c : unit) (_ : Request) : QueryOutcome string * unit :=
  (Rejected "Persistent API error", c).

(** A store whose commits follow a script ([None]: success) and
    succeed once the script is used up; it keeps the batches
    committed. *)
Record Store : Type := mkStore {
  script : list (option string);
  committed : list (list GscFirestoreDoc)
}.

Definition commit (s : Store) (chunk : list GscFirestoreDoc)
    : option string * Store :=
  match script s with
  | Some error :: r => (Some error, {| script := r; committed := committed s |})
  | None :: r =>
      (None, {| script := r; committed := (committed s ++ [chunk])%list |})
  | [] =>
      (None, {| script := []; committed := (committed s ++ [chunk])%list |})
  end.

(** A store that accepts every commit and keeps the batches. *)
Definition accepting (s : list (list GscFirestoreDoc))
    (chunk : list GscFirestoreDoc)
    : option string * list (list GscFirestoreDoc) :=
  (None, (s ++ [chunk])%list).

Definition sampleDoc : GscFirestoreDoc :=
  {| siteUrl := "site"; normalizedUrl := "url"; query := "query";
     date := "2023-01-01";
     doc_impressions := 1; doc_clicks := 1; doc_position := 1; doc_ctr := 1;
     device := "d"; country := "c"; searchAppearance := "s";
     ingestedAt := serverTimestamp |}.

(** The dates of January 2023 in a process running in UTC:
    2023-01-01T00:00Z is day 19358 since the epoch, and every day
    has 24 hours. *)
Definition msPerDay : Z := 86400000.

Definition twoDigits (n : Z) : string :=
  (if (n <? 10)%Z then "0" else "") ++ JS.numberToString n.

Definition isoDay (t : Z) : string :=
  "2023-01-" ++ twoDigits (t / msPerDay - 19357).

Definition parseDay (s : string) : option Z :=
  if prefix "2023-01-" s && (String.length s =? 10)%nat
     && JS.forallChars JS.isDigit (substring 8 2 s)
  then Some ((19357 + Z.of_N (URL.decimal 0 (substring 8 2 s))) * msPerDay)%Z
  else None.

Definition utcStep (_ : Z) : positive := 86400000.

(** The same dates in a process whose time zone leaves daylight
    saving on 2023-01-02: that local day has 25 hours. *)
Definition dstStep (t : Z) : positive :=
  if (t / msPerDay =? 19359)%Z then 90000000 else 86400000.

End Mock.

(** ** Vocabulary of the statements *)

(** The payloads of the commits among the store calls, in order. *)
Fixpoint commits (calls : list StoreCall) : list (list GscFirestoreDoc) :=
  match calls with
  | [] => []
  | CallCommit writes :: r => writes :: commits r
  | _ :: r => commits r
  end.

(** The number of batches created among the store calls. *)
Fixpoint batchesCreated (calls : list StoreCall) : nat :=
  match calls with
  | [] => 0
  | CallBatch :: r => S (batchesCreated r)
  | _ :: r => batchesCreated r
  end.

(** [rows] of a response, an absent member read as no rows. *)
Definition pageRows (rows : option (list GscApiRow)) : list GscApiRow :=
  match rows with
  | Some l => l
  | None => []
  end.

Section FetcherScenarios.

Variable Client : Type.
Variable ApiError : Type.
Variable query : Client -> Request -> QueryOutcome ApiError * Client.

(** From [client] on, the requests for the rows at [startRow],
    [startRow + rowLimit], ... are answered by [pages], one page each,
    and then by [last]; [final] is the client after that. *)
Fixpoint Serves (client : Client) (siteUrl date : string) (startRow : Z)
    (pages : list (list GscApiRow)) (last : option (list GscApiRow))
    (final : Client) : Prop :=
  match pages with
  | [] =>
      query client (fetchRequest siteUrl date startRow) = (Resolved last, final)
  | page :: pages' =>
      exists client',
        query client (fetchRequest siteUrl date startRow)
        = (Resolved (Some page), client')
        /\ Serves client' siteUrl date (startRow + rowLimit)%Z pages' last final
  end.

(** From [client] on, [n] successive calls with [request] are
    rejected; [final] is the client after them. *)
Fixpoint Rejects (client : Client) (request : Request) (n : nat)
    (final : Client) : Prop :=
  match n with
  | O => final = client
  | S n' =>
      exists (error : ApiError) (client' : Client),
        query client request = (Rejected error, client')
        /\ Rejects client' request n' final
  end.

End FetcherScenarios.

(** The requests of [n] successive pages of one day. *)
Definition pageRequests (siteUrl date : string) (startRow : Z) (n : nat)
    : list Request :=
  map (fun k => fetchRequest siteUrl date (startRow + Z.of_nat k * rowLimit)%Z)
    (seq 0 n).

(** The store calls of the batches number [0] to [n - 1] counted from
    position [i]: the batch is created, every document of the chunk is
    staged under a fresh reference, the batch is committed. *)
Definition batchCalls (path : string) (documents : list GscFirestoreDoc)
    (i n : nat) : list StoreCall :=
  flat_map
    (fun j =>
       let chunk := slice documents (i + j * batchSize) in
       (CallBatch :: stageCalls path chunk ++ [CallCommit chunk])%list)
    (seq 0 n).

(** The number of chunks of [n] documents. *)
Definition chunkCount (n : nat) : nat := (n + (batchSize - 1)) / batchSize.

Section PersisterScenarios.

Variable Store : Type.
Variable StoreError : Type.
Variable commit : Store -> list GscFirestoreDoc -> option StoreError * Store.

(** From [db] on, the commits of the [n] chunks at positions [i],
    [i + batchSize], ... succeed and leave the store in [db']. *)
Fixpoint Commits (db : Store) (documents : list GscFirestoreDoc)
    (i n : nat) (db' : Store) : Prop :=
  match n with
  | O => db' = db
  | S n' =>
      exists db1,
        commit db (slice documents i) = (None, db1)
        /\ Commits db1 documents (i + batchSize) n' db'
  end.

End PersisterScenarios.

(** What a day contributes to [totalRowsWritten]: its rows when the
    day was written, nothing when its error was caught. *)
Definition rowsWritten {StoreError : Type} (o : DayOutcome StoreError) : Z :=
  match o with
  | DayWritten rows => Z.of_nat rows
  | DayCaught _ => 0%Z
  end.

Definition sumRows {StoreError : Type} (os : list (DayOutcome StoreError)) : Z :=
  fold_right (fun o acc => (rowsWritten o + acc)%Z) 0%Z os.

Section DateScenarios.

Variable Date_step : Z -> positive.

(** The dates that the loop visits from [dt] on: [dt] and the dates
    that [setDate] steps to, as long as they are not past [end_]. *)
Inductive Visits (end_ : Z) : Z -> list Z -> Prop :=
| VisitsDone (dt : Z) : (end_ < dt)%Z -> Visits end_ dt []
| VisitsDay (dt : Z) (dates : list Z) :
    (dt <= end_)%Z ->
    Visits end_ (Date_nextDay Date_step dt) dates ->
    Visits end_ dt (dt :: dates).

End DateScenarios.

(** The days from [start] to [end_], 24 hours apart. *)
Definition calendarDays (start end_ : Z) : list Z :=
  map (fun k => (start + Z.of_nat k * 86400000)%Z)
    (seq 0 (S (Z.to_nat ((end_ - start) / 86400000)))).

Section OrchestratorScenarios.

Variable beyond : string -> option URLObject.
Variable Client : Type.
Variable ApiError : Type.
Variable query : Client -> Request -> QueryOutcome ApiError * Client.
Variable Store : Type.
Variable StoreError : Type.
Variable commit : Store -> list GscFirestoreDoc -> option StoreError * Store.
Variable Date_isoDay : Z -> string.

(** The outcome of each of the given days, every day processed from
    the world its predecessor left, whatever that predecessor's
    outcome. *)
Fixpoint dayOutcomes (fuel : nat) (siteUrl : string) (days : list Z)
    (w : World Client Store)
    : option (list (DayOutcome StoreError) * World Client Store) :=
  match days with
  | [] => Some ([], w)
  | d :: days' =>
      match processDay beyond Client ApiError query Store StoreError commit
              fuel w siteUrl (Date_isoDay d) with
      | None => None
      | Some (o, w1) =>
          match dayOutcomes fuel siteUrl days' w1 with
          | None => None
          | Some (os, w') => Some (o :: os, w')
          end
      end
  end.

(** How one day goes, read off the fetcher and the persister: the
    fetch fails, or it returns no rows, or the rows are normalised in
    their order and persisted, which succeeds or fails. *)
Inductive DayRuns (fuel : nat) (siteUrl : string) (d : Z)
    (w : World Client Store)
    : DayOutcome StoreError -> World Client Store -> Prop :=
| FetchFails (message : string) (client' : Client) (log : list Request) :
    fetchGSCDataForDate Client ApiError query fuel (gscClient _ _ w)
      siteUrl (Date_isoDay d)
    = Some (FetchFailed message, client', log) ->
    DayRuns fuel siteUrl d w (DayCaught (FetchError message))
      {| gscClient := client'; db := db _ _ w |}
| NothingFetched (client' : Client) (log : list Request) :
    fetchGSCDataForDate Client ApiError query fuel (gscClient _ _ w)
      siteUrl (Date_isoDay d)
    = Some (Fetched [], client', log) ->
    DayRuns fuel siteUrl d w (DayWritten 0)
      {| gscClient := client'; db := db _ _ w |}
| PersistFails (rawRows : list GscApiRow) (client' : Client)
    (log : list Request) (error : StoreError) (db' : Store)
    (calls : list StoreCall) :
    fetchGSCDataForDate Client ApiError query fuel (gscClient _ _ w)
      siteUrl (Date_isoDay d)
    = Some (Fetched rawRows, client', log) ->
    rawRows <> [] ->
    writeToFirestoreInBatches Store StoreError commit (db _ _ w) collectionPath
      (map (fun row => normalizeRow beyond row siteUrl (Date_isoDay d)) rawRows)
    = Some (Some error, db', calls) ->
    DayRuns fuel siteUrl d w (DayCaught (WriteError error))
      {| gscClient := client'; db := db' |}
| DayCompletes (rawRows : list GscApiRow) (client' : Client)
    (log : list Request) (db' : Store) (calls : list StoreCall) :
    fetchGSCDataForDate Client ApiError query fuel (gscClient _ _ w)
      siteUrl (Date_isoDay d)
    = Some (Fetched rawRows, client', log) ->
    rawRows <> [] ->
    writeToFirestoreInBatches Store StoreError commit (db _ _ w) collectionPath
      (map (fun row => normalizeRow beyond row siteUrl (Date_isoDay d)) rawRows)
    = Some (None, db', calls) ->
    DayRuns fuel siteUrl d w (DayWritten (List.length rawRows))
      {| gscClient := client'; db := db' |}.

(** The days of a range, each run from the world its predecessor
    left, failed or not. *)
Inductive RangeRuns (fuel : nat) (siteUrl : string)
    : list Z -> World Client Store ->
      list (DayOutcome StoreError) -> World Client Store -> Prop :=
| RangeDone (w : World Client Store) : RangeRuns fuel siteUrl [] w [] w
| RangeDay (d : Z) (days : list Z) (w w1 w' : World Client Store)
    (o : DayOutcome StoreError) (os : list (DayOutcome StoreError)) :
    DayRuns fuel siteUrl d w o w1 ->
    RangeRuns fuel siteUrl days w1 os w' ->
    RangeRuns fuel siteUrl (d :: days) w (o :: os) w'.

End OrchestratorScenarios.

(** A [utm_] parameter, as the [forEach] callback tests it. *)
Definition isUtm (p : string * string) : bool :=
  JS.startsWith (JS.toLowerCase (fst p)) "utm_".

Definition nonUtm (p : string * string) : bool := negb (isUtm p).

(** No [utm_] parameter is directly followed by another one. *)
Fixpoint noAdjacentUtm (l : list (string * string)) : bool :=
  match l with
  | a :: r =>
      match r with
      | b :: _ => negb (isUtm a && isUtm b)
      | [] => true
      end && noAdjacentUtm r
  | [] => true
  end.

(** The path as [normalizeRow] appends it: one trailing slash off,
    unless the path is a single character. *)
Definition stripTrailingSlash (path : string) : string :=
  if (1 <? String.length path)%nat && JS.endsWithSlash path
  then JS.sliceDropLast path else path.

(** The URL object of a page among the modelled inputs: what
    [new URL(page)] builds whatever the platform does outside them. *)
Definition webURL (page : string) : option URLObject :=
  newURL (fun _ => None) page.

(** The characters that a path segment and a query are made of on
    the modelled inputs. *)
Definition isPathChar (c : ascii) : bool :=
  URL.isPlain c && negb (JS.oneOf "/?#" c).

Definition isQueryChar (c : ascii) : bool :=
  URL.isPlain c && negb (JS.isChar "#" c).

(** A segment as the path state leaves it in the URL's path. *)
Definition isSegment (seg : string) : bool :=
  JS.forallChars isPathChar seg
  && negb (URL.isDoubleDot seg) && negb (URL.isSingleDot seg).

(** The [search] of a URL whose query is [q], and the query that the
    parser reads back from it. *)
Definition searchText (q : string) : string :=
  match q with
  | EmptyString => EmptyString
  | _ => "?" ++ q
  end.

Definition queryOf (q : string) : option string :=
  match q with
  | EmptyString => None
  | _ => Some q
  end.

(** The [search] of a URL whose query is the serialisation of [l]. *)
Definition searchOf (l : list (string * string)) : string :=
  match URLSearchParams.serialize l with
  | EmptyString => EmptyString
  | q => "?" ++ q
  end.

Section RetryScenarios.

Variable Client : Type.
Variable ApiError : Type.
Variable query : Client -> Request -> QueryOutcome ApiError * Client.

(** From [client] on, the requests for the rows at [startRow],
    [startRow + rowLimit], ... are each rejected a number of times
    and then answered with a page, as listed in [pages]; [final] is
    the client after the last page. *)
Fixpoint FlakyPages (client : Client) (siteUrl date : string) (startRow : Z)
    (pages : list (nat * list GscApiRow)) (final : Client) : Prop :=
  match pages with
  | [] => final = client
  | (retries, page) :: pages' =>
      exists client1 client2,
        Rejects Client ApiError query client
          (fetchRequest siteUrl date startRow) retries client1
        /\ query client1 (fetchRequest siteUrl date startRow)
           = (Resolved (Some page), client2)
        /\ FlakyPages client2 siteUrl date (startRow + rowLimit)%Z pages' final
  end.

End RetryScenarios.

(** The requests of such a run: each page is asked for once more than
    it was rejected. *)
Fixpoint pagesLog (siteUrl date : string) (startRow : Z)
    (pages : list (nat * list GscApiRow)) : list Request :=
  match pages with
  | [] => []
  | (retries, _) :: pages' =>
      (repeat (fetchRequest siteUrl date startRow) (S retries)
       ++ pagesLog siteUrl date (startRow + rowLimit)%Z pages')%list
  end.

(** Every page is rejected at most [maxRetries] times and is full. *)
Definition withinBudget (pages : list (nat * list GscApiRow)) : Prop :=
  Forall (fun kp => (Z.of_nat (fst kp) <= maxRetries)%Z
                    /\ Z.of_nat (List.length (snd kp)) = rowLimit) pages.

(** The documents staged with [batch.set], the references created
    with [doc()] and the collections asked for, among the store
    calls. *)
Fixpoint staged (calls : list StoreCall) : list GscFirestoreDoc :=
  match calls with
  | [] => []
  | CallSet doc :: r => doc :: staged r
  | _ :: r => staged r
  end.

Fixpoint docRefs (calls : list StoreCall) : nat :=
  match calls with
  | [] => 0
  | CallDoc :: r => S (docRefs r)
  | _ :: r => docRefs r
  end.

Fixpoint collections (calls : list StoreCall) : list string :=
  match calls with
  | [] => []
  | CallCollection path :: r => path :: collections r
  | _ :: r => collections r
  end.

(** * Properties *)

(** ** The normaliser *)

Section NormalizerFacts.

Variable beyond : string -> option URLObject.

Lemma dropUtm_shrinks (value key : string) (o : URLObject) :
  (List.length (searchParams (dropUtm value key o))
   <= List.length (searchParams o))%nat.
Proof.
  unfold dropUtm.
  destruct (JS.startsWith (JS.toLowerCase key) "utm_"); [|lia].
  apply filter_length_le.
Qed.

(** Fuel beyond the number of pairs left to visit changes nothing:
    [searchParams_forEach] runs the iteration to its end. *)
Lemma forEachFrom_fuel
    (callback : string -> string -> URLObject -> URLObject)
    (shrinks : forall v k o,
        (List.length (searchParams (callback v k o))
         <= List.length (searchParams o))%nat) :
  forall fuel i o,
    (List.length (searchParams o) - i <= fuel)%nat ->
    forall fuel', (fuel <= fuel')%nat ->
    forEachFrom fuel' i callback o = forEachFrom fuel i callback o.
Proof.
  induction fuel as [|fuel IH]; intros i o Hlen fuel' Hle.
  - assert (Hnone : nth_error (searchParams o) i = None)
      by (apply nth_error_None; lia).
    destruct fuel'; simpl; [reflexivity|].
    now rewrite Hnone.
  - destruct fuel' as [|fuel']; [lia|].
    simpl. destruct (nth_error (searchParams o) i) as [[k v]|]; [|reflexivity].
    apply IH; [|lia].
    specialize (shrinks v k o). lia.
Qed.


Lemma parse_sentinel : URL.parse "INVALID_URL" = URL.Failure.
Proof. reflexivity. Qed.

Lemma parse_empty : URL.parse "" = URL.Failure.
Proof. reflexivity. Qed.

(** With no [utm_] parameter in the list the iteration deletes
    nothing. *)
Lemma forEachFrom_nothing_to_drop (o : URLObject) :
  forallb (fun p => negb (JS.startsWith (JS.toLowerCase (fst p)) "utm_"))
    (searchParams o) = true ->
  forall fuel i, forEachFrom fuel i dropUtm o = o.
Proof.
  intros Hnone. induction fuel as [|fuel IH]; intros i; [reflexivity|].
  cbn [forEachFrom].
  destruct (nth_error (searchParams o) i) as [[key value]|] eqn:Hnth;
    [|reflexivity].
  apply nth_error_In in Hnth.
  rewrite forallb_forall in Hnone. specialize (Hnone _ Hnth).
  cbn [fst] in Hnone. apply negb_true_iff in Hnone.
  unfold dropUtm at 2. rewrite Hnone. apply IH.
Qed.

End NormalizerFacts.


Lemma normalizeRow_country_present
    (beyond : string -> option URLObject) (rawRow : GscApiRow)
    (ks : list (option string)) (c siteUrl date : string) :
  keys rawRow = Some ks ->
  nth_error ks 3 = Some (Some c) ->
  c <> "" ->
  country (normalizeRow beyond rawRow siteUrl date) = JS.toUpperCase c.
Proof.
  intros Hks Hc Hne. unfold normalizeRow. simpl. rewrite Hks.
  unfold keyAt. rewrite Hc. simpl. destruct c; [contradiction|reflexivity].
Qed.

(** C1 (the code departs from the claim).  A non-empty page that does
    not parse, here the test's ['not a valid url'], is stored as it
    is: the catch branch yields [finalPage || 'INVALID_URL'], and the
    sentinel is reached for the empty page only.  Both copies of
    [normalizeRow] agree on this. *)
Theorem normalizeRow_unparsable_page_kept :
  forall (beyond : string -> option URLObject) (siteUrl date : string),
    normalizedUrl
      (normalizeRow beyond (Mock.pageRow "not a valid url") siteUrl date)
    = "not a valid url"
    /\ Part002.normalizedUrl
         (Part002.normalizeRow beyond (Mock.pageRow "not a valid url")
            siteUrl date)
       = "not a valid url"
    /\ normalizedUrl (normalizeRow beyond (Mock.pageRow "") siteUrl date)
       = "INVALID_URL".
Proof.
  intros beyond siteUrl date. repeat split; reflexivity.
Qed.

(** C2 (the code departs from the claim).  Deleting inside
    [searchParams.forEach] shifts the live list under the iteration
    index, so the pair that follows a deleted one is not visited: of
    two adjacent [utm_] parameters the second survives. *)
Theorem normalizeRow_adjacent_utm_survives :
  forall (beyond : string -> option URLObject) (siteUrl date : string),
    normalizedUrl
      (normalizeRow beyond
         (Mock.pageRow
            "https://example.com/page?utm_source=google&utm_medium=cpc&other=param")
         siteUrl date)
    = "https://example.com/page?utm_medium=cpc&other=param".
Proof.
  intros beyond siteUrl date. vm_compute. reflexivity.
Qed.

(** C3 (the code departs from the claim).  Only the host name is
    lower-cased, the path keeps its case; and the guard
    [path.length > 1] keeps the root path ["/"], so the canonical form
    of a root URL ends in a slash. *)
Theorem normalizeRow_path_case_and_root_kept :
  forall (beyond : string -> option URLObject) (siteUrl date : string),
    normalizedUrl
      (normalizeRow beyond (Mock.pageRow "https://EXAMPLE.com/PAGE") siteUrl date)
    = "https://example.com/PAGE"
    /\ normalizedUrl
         (normalizeRow beyond (Mock.pageRow "https://example.com/") siteUrl date)
       = "https://example.com/"
    /\ normalizedUrl
         (normalizeRow beyond (Mock.pageRow "https://example.com") siteUrl date)
       = "https://example.com/".
Proof.
  intros beyond siteUrl date. repeat split; vm_compute; reflexivity.
Qed.

(** C9 (the code departs from the claim).  With the country key
    absent [gsc.ts] stores ["ZZZ"], the upper-cased fallback ['zzz'],
    where the second copy of the function stores ["UNKNOWN"]. *)
Theorem normalizeRow_country_absent :
  forall (beyond : string -> option URLObject) (page siteUrl date : string),
    country (normalizeRow beyond (Mock.pageOnlyRow page) siteUrl date) = "ZZZ"
    /\ Part002.country
         (Part002.normalizeRow beyond (Mock.pageOnlyRow page) siteUrl date)
       = "UNKNOWN".
Proof.
  intros beyond page siteUrl date. split; reflexivity.
Qed.


(** ** The fetcher *)

Section FetcherFacts.

Variable Client : Type.
Variable ApiError : Type.
Variable query : Client -> Request -> QueryOutcome ApiError * Client.

Lemma pageRequests_succ (siteUrl date : string) (startRow : Z) (n : nat) :
  pageRequests siteUrl date startRow (S n)
  = fetchRequest siteUrl date startRow
    :: pageRequests siteUrl date (startRow + rowLimit)%Z n.
Proof.
  unfold pageRequests. cbn [seq map]. rewrite <- seq_shift, map_map.
  f_equal.
  - f_equal. lia.
  - apply map_ext. intros k. f_equal. unfold rowLimit. lia.
Qed.

Lemma full_page_cons (page : list GscApiRow) :
  Z.of_nat (List.length page) = rowLimit ->
  exists r rs, page = r :: rs.
Proof.
  destruct page as [|r rs]; [discriminate|]. intros _. now exists r, rs.
Qed.

(** The loop over [N] full pages followed by a short one, from any
    state of its variables. *)
Lemma fetchLoop_pages (siteUrl date : string)
    (last : option (list GscApiRow)) (final : Client) :
  (Z.of_nat (List.length (pageRows last)) < rowLimit)%Z ->
  forall (pages : list (list GscApiRow)) (client : Client)
         (allRows : list GscApiRow) (startRow attempt : Z)
         (log : list Request) (fuel : nat),
    Forall (fun page => Z.of_nat (List.length page) = rowLimit) pages ->
    Serves Client ApiError query client siteUrl date startRow pages last final ->
    (List.length pages < fuel)%nat ->
    fetchLoop Client ApiError query fuel siteUrl date client allRows startRow
      attempt log
    = Some (Fetched (allRows ++ concat pages ++ pageRows last)%list,
            final,
            (log ++ pageRequests siteUrl date startRow
                      (S (List.length pages)))%list).
Proof.
  intros Hshort.
  induction pages as [|page pages IH];
    intros client allRows startRow attempt log fuel Hfull Hserves Hfuel;
    (destruct fuel as [|fuel]; [simpl in Hfuel; lia|]).
  - simpl in Hserves. cbn [fetchLoop].
    rewrite Hserves. rewrite pageRequests_succ. cbn [pageRequests seq map concat].
    destruct last as [[|r rs]|].
    + now rewrite !app_nil_r.
    + cbn [pageRows] in Hshort |- *.
      assert (Hneq : (Z.of_nat (List.length (r :: rs)) =? rowLimit)%Z = false)
        by (apply Z.eqb_neq; lia).
      now rewrite Hneq.
    + now rewrite !app_nil_r.
  - destruct Hserves as [client' [Hquery Hrest]].
    inversion Hfull as [|? ? Hpage Hpages]; subst.
    destruct (full_page_cons page Hpage) as [r [rs ->]].
    cbn [fetchLoop]. rewrite Hquery.
    assert (Heq : (Z.of_nat (List.length (r :: rs)) =? rowLimit)%Z = true)
      by (now apply Z.eqb_eq).
    rewrite Heq, Hpage.
    rewrite (IH client' _ _ 0%Z _ fuel Hpages Hrest); [|simpl in Hfuel; lia].
    cbn [List.length concat].
    rewrite (pageRequests_succ siteUrl date startRow).
    now rewrite <- !app_assoc.
Qed.

(** One iteration of the loop. *)
Lemma fetchLoop_step (fuel : nat) (siteUrl date : string) (client : Client)
    (allRows : list GscApiRow) (startRow attempt : Z) (log : list Request) :
  fetchLoop Client ApiError query (S fuel) siteUrl date client allRows startRow
    attempt log
  = match query client (fetchRequest siteUrl date startRow) with
    | (Resolved (Some (r :: rs)), client') =>
        if (Z.of_nat (List.length (r :: rs)) =? rowLimit)%Z then
          fetchLoop Client ApiError query fuel siteUrl date client'
            (allRows ++ r :: rs)%list
            (startRow + Z.of_nat (List.length (r :: rs)))%Z 0%Z
            (log ++ [fetchRequest siteUrl date startRow])%list
        else Some (Fetched (allRows ++ r :: rs)%list, client',
                   (log ++ [fetchRequest siteUrl date startRow])%list)
    | (Resolved _, client') =>
        Some (Fetched allRows, client',
              (log ++ [fetchRequest siteUrl date startRow])%list)
    | (Rejected _, client') =>
        if (attempt <? maxRetries)%Z then
          fetchLoop Client ApiError query fuel siteUrl date client' allRows
            startRow (attempt + 1)%Z
            (log ++ [fetchRequest siteUrl date startRow])%list
        else Some (FetchFailed (fetchErrorMessage date), client',
                   (log ++ [fetchRequest siteUrl date startRow])%list)
    end.
Proof. reflexivity. Qed.

(** A result, once reached, is reached with any larger fuel. *)
Lemma fetchLoop_more_fuel (siteUrl date : string) :
  forall (fuel : nat) (client : Client) (allRows : list GscApiRow)
         (startRow attempt : Z) (log : list Request)
         (r : FetchResult * Client * list Request) (extra : nat),
    fetchLoop Client ApiError query fuel siteUrl date client allRows startRow
      attempt log = Some r ->
    fetchLoop Client ApiError query (fuel + extra) siteUrl date client allRows
      startRow attempt log = Some r.
Proof.
  induction fuel as [|fuel IH];
    intros client allRows startRow attempt log r extra Hrun; [discriminate|].
  cbn [Nat.add fetchLoop] in Hrun |- *.
  destruct (query client (fetchRequest siteUrl date startRow))
    as [[[[|row rows]|]|error] client'].
  - exact Hrun.
  - destruct (Z.of_nat (List.length (row :: rows)) =? rowLimit)%Z;
      [now apply IH|exact Hrun].
  - exact Hrun.
  - destruct (attempt <? maxRetries)%Z; [now apply IH|exact Hrun].
Qed.

(** The retry policy on one page: entered with [attempt] retries
    already made, the loop gives up at the rejection that finds
    [attempt = maxRetries], that is after [maxRetries - attempt + 1]
    rejected requests for the same page. *)
Lemma fetchLoop_rejections (siteUrl date : string) (startRow : Z)
    (final : Client) :
  forall (m : nat) (client : Client) (allRows : list GscApiRow)
         (attempt : Z) (log : list Request) (fuel : nat),
    (attempt + Z.of_nat m = maxRetries)%Z ->
    Rejects Client ApiError query client
      (fetchRequest siteUrl date startRow) (S m) final ->
    fetchLoop Client ApiError query (S m + fuel) siteUrl date client allRows
      startRow attempt log
    = Some (FetchFailed (fetchErrorMessage date), final,
            (log ++ repeat (fetchRequest siteUrl date startRow) (S m))%list).
Proof.
  induction m as [|m IH]; intros client allRows attempt log fuel Hattempt Hrej;
    destruct Hrej as [error [client' [Hquery Hrest]]];
    rewrite Nat.add_succ_l, fetchLoop_step, Hquery.
  - simpl in Hrest. subst final.
    assert (Hlast : (attempt <? maxRetries)%Z = false) by (apply Z.ltb_ge; lia).
    now rewrite Hlast.
  - assert (Hretry : (attempt <? maxRetries)%Z = true) by (apply Z.ltb_lt; lia).
    rewrite Hretry.
    rewrite (IH client' allRows (attempt + 1)%Z _ fuel); [|lia|exact Hrest].
    now rewrite <- app_assoc.
Qed.

End FetcherFacts.

(** C4.  When the API answers the successive page requests with [N]
    pages of exactly [rowLimit] rows and then with a shorter page
    (possibly empty, possibly without a [rows] member), the fetcher
    returns: it has issued [N + 1] requests, whose [startRow] values
    are [0], [rowLimit], [2 * rowLimit], ..., and its result is the
    concatenation of the pages in request order.  With [N = 0] and an
    empty first page the result is the empty list, not an error. *)
Theorem fetch_pagination :
  forall (Client ApiError : Type)
         (query : Client -> Request -> QueryOutcome ApiError * Client)
         (siteUrl date : string)
         (pages : list (list GscApiRow)) (last : option (list GscApiRow))
         (client final : Client) (fuel : nat),
    Forall (fun page => Z.of_nat (List.length page) = rowLimit) pages ->
    (Z.of_nat (List.length (pageRows last)) < rowLimit)%Z ->
    Serves Client ApiError query client siteUrl date 0 pages last final ->
    (List.length pages < fuel)%nat ->
    exists log : list Request,
      fetchGSCDataForDate Client ApiError query fuel client siteUrl date
      = Some (Fetched (concat pages ++ pageRows last)%list, final, log)
      /\ List.length log = S (List.length pages)
      /\ map rq_startRow log
         = map (fun k => (Z.of_nat k * rowLimit)%Z)
             (seq 0 (S (List.length pages)))
      /\ Forall (fun request => rq_startDate request = date
                                /\ rq_endDate request = date
                                /\ rq_rowLimit request = rowLimit) log.
Proof.
  intros Client ApiError query siteUrl date pages last client final fuel
    Hfull Hshort Hserves Hfuel.
  exists (pageRequests siteUrl date 0 (S (List.length pages))).
  split; [|split; [|split]].
  - unfold fetchGSCDataForDate.
    now rewrite (fetchLoop_pages Client ApiError query siteUrl date last final
                   Hshort pages client [] 0%Z 0%Z [] fuel Hfull Hserves Hfuel).
  - unfold pageRequests. now rewrite length_map, length_seq.
  - unfold pageRequests. rewrite map_map. apply map_ext. intros k. reflexivity.
  - unfold pageRequests. apply Forall_map, Forall_forall. intros k _.
    repeat split.
Qed.

Lemma fetch_pagination_witness :
  let page1 := repeat (Mock.pageOnlyRow "page1.html") (Z.to_nat rowLimit) in
  let page2 := repeat (Mock.pageOnlyRow "page2.html") 100 in
  exists log : list Request,
    fetchGSCDataForDate Mock.Client string Mock.scripted 2
      [Resolved (Some page1); Resolved (Some page2)]
      "sc-domain:example.com" "2023-01-01"
    = Some (Fetched (concat [page1] ++ page2)%list, [], log)
    /\ List.length log = 2%nat
    /\ map rq_startRow log = [0%Z; rowLimit]
    /\ Forall (fun request => rq_startDate request = "2023-01-01"
                              /\ rq_endDate request = "2023-01-01"
                              /\ rq_rowLimit request = rowLimit) log.
Proof.
  intros page1 page2.
  apply (fetch_pagination Mock.Client string Mock.scripted
           "sc-domain:example.com" "2023-01-01"
           [page1] (Some page2)
           [Resolved (Some page1); Resolved (Some page2)] [] 2).
  - constructor; [vm_compute; reflexivity | constructor].
  - vm_compute. reflexivity.
  - simpl. eexists. split; reflexivity.
  - simpl. lia.
Defined.

(** C5 (the code departs from the claim).  Against an API that rejects
    every call the fetcher issues six requests for the page, the first
    attempt and [maxRetries] retries, before it fails: six iterations
    end the loop however much fuel is left, five or fewer do not.  The
    message names the date and [maxRetries]. *)
Theorem fetch_retry_exhaustion :
  forall (siteUrl date : string) (extra : nat),
    fetchGSCDataForDate unit string Mock.failing (6 + extra) tt siteUrl date
    = Some (FetchFailed
              ("Failed to fetch GSC data for " ++ date ++ " after 5 attempts."),
            tt, repeat (fetchRequest siteUrl date 0) 6)
    /\ fetchGSCDataForDate unit string Mock.failing (5 - extra) tt siteUrl date
       = None.
Proof.
  intros siteUrl date extra. split; [reflexivity|].
  do 6 (destruct extra as [|extra]; [reflexivity|]). reflexivity.
Qed.

(** ** The persister *)

Lemma firstn_add_skipn {A : Type} (a b : nat) (l : list A) :
  firstn (a + b) l = (firstn a l ++ firstn b (skipn a l))%list.
Proof.
  revert l. induction a as [|a IH]; intros l; [reflexivity|].
  destruct l as [|x l]; simpl.
  - now rewrite firstn_nil.
  - now rewrite IH.
Qed.

Lemma commits_app (xs ys : list StoreCall) :
  commits (xs ++ ys) = (commits xs ++ commits ys)%list.
Proof.
  induction xs as [|c xs IH]; [reflexivity|].
  destruct c; simpl; now rewrite ?IH.
Qed.

Lemma batchesCreated_app (xs ys : list StoreCall) :
  batchesCreated (xs ++ ys) = (batchesCreated xs + batchesCreated ys)%nat.
Proof.
  induction xs as [|c xs IH]; [reflexivity|].
  destruct c; simpl; now rewrite ?IH.
Qed.

Lemma commits_stageCalls (path : string) (chunk : list GscFirestoreDoc) :
  commits (stageCalls path chunk) = [].
Proof. induction chunk as [|d chunk IH]; simpl; [reflexivity|assumption]. Qed.

Lemma batchesCreated_stageCalls (path : string) (chunk : list GscFirestoreDoc) :
  batchesCreated (stageCalls path chunk) = 0%nat.
Proof. induction chunk as [|d chunk IH]; simpl; [reflexivity|assumption]. Qed.

Lemma batchCalls_succ (path : string) (documents : list GscFirestoreDoc)
    (i n : nat) :
  batchCalls path documents i (S n)
  = ((CallBatch :: stageCalls path (slice documents i)
        ++ [CallCommit (slice documents i)])
     ++ batchCalls path documents (i + batchSize) n)%list.
Proof.
  unfold batchCalls. cbn [seq flat_map]. rewrite <- seq_shift, flat_map_concat_map.
  rewrite map_map, <- flat_map_concat_map.
  rewrite Nat.mul_0_l, Nat.add_0_r. f_equal.
  apply flat_map_ext. intros j.
  now replace (i + S j * batchSize)%nat with (i + batchSize + j * batchSize)%nat
    by lia.
Qed.

Lemma commits_batchCalls (path : string) (documents : list GscFirestoreDoc)
    (n i : nat) :
  commits (batchCalls path documents i n)
  = map (fun j => slice documents (i + j * batchSize)) (seq 0 n).
Proof.
  revert i. induction n as [|n IH]; intros i; [reflexivity|].
  rewrite batchCalls_succ. cbn [seq map].
  rewrite commits_app. cbn [app commits].
  rewrite commits_app, commits_stageCalls. cbn [app commits].
  rewrite IH, <- seq_shift, map_map, Nat.mul_0_l, Nat.add_0_r. f_equal.
  apply map_ext. intros j. f_equal. lia.
Qed.

Lemma batchesCreated_batchCalls (path : string)
    (documents : list GscFirestoreDoc) (n i : nat) :
  batchesCreated (batchCalls path documents i n) = n.
Proof.
  revert i. induction n as [|n IH]; intros i; [reflexivity|].
  rewrite batchCalls_succ, batchesCreated_app. cbn [app batchesCreated].
  rewrite batchesCreated_app, batchesCreated_stageCalls, IH. cbn. lia.
Qed.

Section PersisterFacts.

Variable Store : Type.
Variable StoreError : Type.
Variable commit : Store -> list GscFirestoreDoc -> option StoreError * Store.

(** After [n] successful commits the loop stands at position
    [i + n * batchSize] with the calls of those [n] batches made. *)
Lemma writeLoop_commits (path : string) (documents : list GscFirestoreDoc) :
  forall (n i : nat) (db db' : Store) (calls : list StoreCall) (fuel : nat),
    Commits Store StoreError commit db documents i n db' ->
    (n = 0 \/ i + (n - 1) * batchSize < List.length documents)%nat ->
    writeLoop Store StoreError commit (n + fuel) path documents i db calls
    = writeLoop Store StoreError commit fuel path documents
        (i + n * batchSize) db' (calls ++ batchCalls path documents i n)%list.
Proof.
  induction n as [|n IH]; intros i db db' calls fuel Hcommits Hlt.
  - simpl in Hcommits. subst db'. cbn [batchCalls seq flat_map Nat.add].
    now rewrite app_nil_r, Nat.mul_0_l, Nat.add_0_r.
  - destruct Hcommits as [db1 [Hcommit Hrest]].
    destruct Hlt as [Hlt|Hlt]; [discriminate|].
    assert (Hi : (i <? List.length documents)%nat = true)
      by (apply Nat.ltb_lt; lia).
    cbn [Nat.add writeLoop]. rewrite Hi, Hcommit.
    rewrite (IH (i + batchSize)%nat db1 db' _ fuel Hrest).
    + rewrite batchCalls_succ, <- app_assoc. f_equal. lia.
    + destruct n as [|n]; [now left|right].
      replace (S (S n) - 1)%nat with (S n) in Hlt by lia.
      replace (S n - 1)%nat with n by lia. lia.
Qed.

End PersisterFacts.

Lemma chunkCount_covers (n : nat) :
  (n <= chunkCount n * batchSize)%nat
  /\ (chunkCount n = 0 \/ (chunkCount n - 1) * batchSize < n)%nat
  /\ (chunkCount n <= n)%nat.
Proof.
  unfold chunkCount, batchSize.
  pose proof (Nat.div_mod_eq (n + (500 - 1)) 500) as Hdiv.
  pose proof (Nat.mod_upper_bound (n + (500 - 1)) 500) as Hmod.
  lia.
Qed.

Lemma slice_length (documents : list GscFirestoreDoc) (i : nat) :
  List.length (slice documents i)
  = Nat.min batchSize (List.length documents - i).
Proof. unfold slice. now rewrite length_firstn, length_skipn. Qed.

Lemma concat_slices (documents : list GscFirestoreDoc) (n : nat) :
  concat (map (fun j => slice documents (0 + j * batchSize)) (seq 0 n))
  = firstn (n * batchSize) documents.
Proof.
  induction n as [|n IH]; [reflexivity|].
  rewrite seq_S, map_app, concat_app, IH. cbn [map concat Nat.add].
  rewrite app_nil_r. unfold slice.
  now rewrite <- firstn_add_skipn, (Nat.add_comm (n * batchSize)).
Qed.

Section PersisterTheorems.

Variable Store : Type.
Variable StoreError : Type.
Variable commit : Store -> list GscFirestoreDoc -> option StoreError * Store.

Lemma writeLoop_done (fuel : nat) (path : string)
    (documents : list GscFirestoreDoc) (i : nat) (db : Store)
    (calls : list StoreCall) :
  (List.length documents <= i)%nat ->
  writeLoop Store StoreError commit fuel path documents i db calls
  = Some (None, db, calls).
Proof.
  intros Hle.
  assert (Hi : (i <? List.length documents)%nat = false)
    by (apply Nat.ltb_ge; lia).
  destruct fuel; cbn [writeLoop]; now rewrite Hi.
Qed.

(** The loop never runs out of the fuel it is given by
    [writeToFirestoreInBatches]. *)
Lemma writeLoop_total (path : string) (documents : list GscFirestoreDoc) :
  forall (fuel i : nat) (db : Store) (calls : list StoreCall),
    (List.length documents - i <= fuel)%nat ->
    exists r,
      writeLoop Store StoreError commit fuel path documents i db calls = Some r.
Proof.
  induction fuel as [|fuel IH]; intros i db calls Hfuel.
  - eexists. apply writeLoop_done. lia.
  - cbn [writeLoop].
    destruct (i <? List.length documents)%nat eqn:Hi; [|now eexists].
    apply Nat.ltb_lt in Hi.
    destruct (commit db (slice documents i)) as [[error|] db1]; [now eexists|].
    apply IH. unfold batchSize. lia.
Qed.

Lemma Commits_exist (documents : list GscFirestoreDoc) :
  (forall db chunk, fst (commit db chunk) = None) ->
  forall (n i : nat) (db : Store),
    exists db', Commits Store StoreError commit db documents i n db'.
Proof.
  intros Hok. induction n as [|n IH]; intros i db.
  - now exists db.
  - destruct (commit db (slice documents i)) as [o db1] eqn:Hcommit.
    pose proof (Hok db (slice documents i)) as Hfst.
    rewrite Hcommit in Hfst. simpl in Hfst. subst o.
    destruct (IH (i + batchSize)%nat db1) as [db' Hrest].
    exists db'. cbn [Commits]. now exists db1.
Qed.

(** With every commit accepted the calls made are exactly those of
    the [chunkCount] batches. *)
Lemma write_all_batches (db : Store) (path : string)
    (documents : list GscFirestoreDoc) :
  (forall db chunk, fst (commit db chunk) = None) ->
  exists db',
    writeToFirestoreInBatches Store StoreError commit db path documents
    = Some (None, db',
            batchCalls path documents 0 (chunkCount (List.length documents))).
Proof.
  intros Hok.
  destruct (chunkCount_covers (List.length documents)) as [Hcov [Hlast Hle]].
  destruct (Commits_exist documents Hok
              (chunkCount (List.length documents)) 0 db) as [db' Hcommits].
  exists db'. unfold writeToFirestoreInBatches.
  replace (List.length documents)
    with (chunkCount (List.length documents)
          + (List.length documents - chunkCount (List.length documents)))%nat
    at 1 by lia.
  rewrite (writeLoop_commits Store StoreError commit path documents
             _ 0 db db' [] _ Hcommits Hlast).
  apply writeLoop_done. lia.
Qed.

End PersisterTheorems.

Lemma batchCalls_snoc (path : string) (documents : list GscFirestoreDoc)
    (i n : nat) :
  batchCalls path documents i (S n)
  = (batchCalls path documents i n
     ++ CallBatch :: stageCalls path (slice documents (i + n * batchSize))
     ++ [CallCommit (slice documents (i + n * batchSize))])%list.
Proof.
  unfold batchCalls. rewrite seq_S, flat_map_app. cbn [flat_map Nat.add].
  now rewrite app_nil_r.
Qed.

Lemma chunk_sizes (documents : list GscFirestoreDoc) (n : nat) :
  map (@List.length _)
    (map (fun j => slice documents (0 + j * batchSize)) (seq 0 n))
  = map (fun j => Nat.min batchSize (List.length documents - j * batchSize))
      (seq 0 n).
Proof.
  rewrite map_map. apply map_ext. intros j. now rewrite slice_length.
Qed.

(** C7.  With every commit accepted, the persister commits the chunks
    of the input in input order: their concatenation is the input,
    every chunk but the last has 500 documents and the last has
    between 1 and 500, one batch is created per chunk (1200 documents
    give 500/500/200, 1000 give 500/500, 100 give one batch of 100),
    and for no documents there is no store call at all. *)
Theorem write_batches :
  forall (Store StoreError : Type)
         (commit : Store -> list GscFirestoreDoc -> option StoreError * Store),
    (forall db chunk, fst (commit db chunk) = None) ->
    forall (db : Store) (path : string) (documents : list GscFirestoreDoc),
    exists (db' : Store) (calls : list StoreCall),
      writeToFirestoreInBatches Store StoreError commit db path documents
      = Some (None, db', calls)
      /\ concat (commits calls) = documents
      /\ Forall (fun chunk => List.length chunk = 500%nat)
           (removelast (commits calls))
      /\ Forall (fun chunk => (0 < List.length chunk <= 500)%nat)
           (commits calls)
      /\ batchesCreated calls = List.length (commits calls)
      /\ (List.length documents = 1200%nat ->
          map (@List.length _) (commits calls) = [500; 500; 200]%nat)
      /\ (List.length documents = 1000%nat ->
          map (@List.length _) (commits calls) = [500; 500]%nat)
      /\ (List.length documents = 100%nat ->
          map (@List.length _) (commits calls) = [100]%nat)
      /\ (documents = [] -> calls = []).
Proof.
  intros Store StoreError commit Hok db path documents.
  destruct (write_all_batches Store StoreError commit db path documents Hok)
    as [db' Hwrite].
  destruct (chunkCount_covers (List.length documents)) as [Hcov [Hlast Hle]].
  exists db', (batchCalls path documents 0 (chunkCount (List.length documents))).
  split; [exact Hwrite|].
  rewrite commits_batchCalls, batchesCreated_batchCalls.
  repeat split.
  - rewrite concat_slices. now apply firstn_all2.
  - destruct (chunkCount (List.length documents)) as [|m]; [constructor|].
    rewrite seq_S, map_app. cbn [map]. rewrite removelast_last.
    apply Forall_map, Forall_forall. intros j Hj. apply in_seq in Hj.
    rewrite slice_length. unfold batchSize in *. lia.
  - apply Forall_map, Forall_forall. intros j Hj. apply in_seq in Hj.
    rewrite slice_length. unfold batchSize in *. lia.
  - now rewrite length_map, length_seq.
  - intros Hlen. rewrite chunk_sizes, Hlen. reflexivity.
  - intros Hlen. rewrite chunk_sizes, Hlen. reflexivity.
  - intros Hlen. rewrite chunk_sizes, Hlen. reflexivity.
  - intros ->. reflexivity.
Qed.

Lemma write_batches_witness :
  exists (db' : list (list GscFirestoreDoc)) (calls : list StoreCall),
    writeToFirestoreInBatches _ string Mock.accepting [] "test-collection"
      (repeat Mock.sampleDoc 1200)
    = Some (None, db', calls)
    /\ map (@List.length _) (commits calls) = [500; 500; 200]%nat
    /\ batchesCreated calls = 3%nat.
Proof.
  destruct (write_batches _ string Mock.accepting
              (fun db chunk => eq_refl) [] "test-collection"
              (repeat Mock.sampleDoc 1200))
    as [db' [calls [Hw [_ [_ [_ [Hb [H1200 _]]]]]]]].
  exists db', calls. split; [exact Hw|]. split.
  - apply H1200. vm_compute. reflexivity.
  - rewrite Hb, <- (length_map (@List.length _)), H1200; [reflexivity|].
    vm_compute. reflexivity.
Defined.

(** C8.  If the commits of the batches before batch [k] succeed and
    the commit of batch [k] is rejected with [error], the persister
    ends there: the batches committed are those numbered [0] to [k],
    each once and none after, and the promise is rejected with that
    same [error]. *)
Theorem write_failure_aborts :
  forall (Store StoreError : Type)
         (commit : Store -> list GscFirestoreDoc -> option StoreError * Store)
         (db db1 db' : Store) (path : string)
         (documents : list GscFirestoreDoc) (k : nat) (error : StoreError),
    (k * batchSize < List.length documents)%nat ->
    Commits Store StoreError commit db documents 0 k db1 ->
    commit db1 (slice documents (k * batchSize)) = (Some error, db') ->
    exists calls : list StoreCall,
      writeToFirestoreInBatches Store StoreError commit db path documents
      = Some (Some error, db', calls)
      /\ commits calls
         = map (fun j => slice documents (j * batchSize)) (seq 0 (S k))
      /\ batchesCreated calls = S k.
Proof.
  intros Store StoreError commit db db1 db' path documents k error
    Hk Hcommits Hfail.
  exists (batchCalls path documents 0 (S k)).
  split; [|split].
  - unfold writeToFirestoreInBatches.
    assert (Hfuel : exists fuel, List.length documents = (k + S fuel)%nat).
    { exists (List.length documents - k - 1)%nat. unfold batchSize in Hk. lia. }
    destruct Hfuel as [fuel ->].
    rewrite (writeLoop_commits Store StoreError commit path documents
               k 0 db db1 [] (S fuel) Hcommits).
    + cbn [writeLoop app Nat.add].
      assert (Hi : (k * batchSize <? List.length documents)%nat = true)
        by now apply Nat.ltb_lt.
      now rewrite Hi, Hfail, batchCalls_snoc.
    + destruct k as [|k]; [now left|right]. unfold batchSize in *. lia.
  - rewrite commits_batchCalls. apply map_ext. intros j. reflexivity.
  - apply batchesCreated_batchCalls.
Qed.

Lemma write_failure_aborts_witness :
  exists calls : list StoreCall,
    writeToFirestoreInBatches Mock.Store string Mock.commit
      {| Mock.script := [None; Some "Firestore commit failed: permission denied."];
         Mock.committed := [] |}
      "test-collection" (repeat Mock.sampleDoc 1200)
    = Some (Some "Firestore commit failed: permission denied.",
            {| Mock.script := [];
               Mock.committed := [repeat Mock.sampleDoc 500] |},
            calls)
    /\ commits calls
       = map (fun j => slice (repeat Mock.sampleDoc 1200) (j * batchSize))
           (seq 0 2)
    /\ batchesCreated calls = 2%nat.
Proof.
  apply (write_failure_aborts Mock.Store string Mock.commit
           {| Mock.script := [None; Some "Firestore commit failed: permission denied."];
              Mock.committed := [] |}
           {| Mock.script := [Some "Firestore commit failed: permission denied."];
              Mock.committed := [repeat Mock.sampleDoc 500] |}
           {| Mock.script := [];
              Mock.committed := [repeat Mock.sampleDoc 500] |}
           "test-collection" (repeat Mock.sampleDoc 1200) 1
           "Firestore commit failed: permission denied.").
  - vm_compute. lia.
  - eexists. split; [vm_compute; reflexivity | reflexivity].
  - vm_compute. reflexivity.
Defined.

(** ** The orchestrator *)

Section OrchestratorFacts.

Variable beyond : string -> option URLObject.
Variable Client : Type.
Variable ApiError : Type.
Variable query : Client -> Request -> QueryOutcome ApiError * Client.
Variable Store : Type.
Variable StoreError : Type.
Variable commit : Store -> list GscFirestoreDoc -> option StoreError * Store.
Variable Date_parse : string -> option Z.
Variable Date_isoDay : Z -> string.
Variable Date_step : Z -> positive.

(** The loop processes the dates it visits, one after the other, and
    adds up what they contribute. *)
Lemma ingestLoop_outcomes (fuel : nat) (siteUrl : string) (end_ : Z) :
  forall (dt : Z) (dates : list Z),
    Visits Date_step end_ dt dates ->
    forall (days : nat) (w w' : World Client Store) (total : Z)
           (outcomes : list (DayOutcome StoreError)),
      dayOutcomes beyond Client ApiError query Store StoreError commit
        Date_isoDay fuel siteUrl dates w
      = Some (outcomes, w') ->
      (List.length dates <= days)%nat ->
      ingestLoop beyond Client ApiError query Store StoreError commit
        Date_isoDay Date_step days fuel siteUrl dt end_ w total
      = Some ((total + sumRows outcomes)%Z, w').
Proof.
  intros dt dates Hvisits.
  induction Hvisits as [dt Hgt|dt dates Hle Hvisits IH];
    intros days w w' total outcomes Hout Hdays.
  - simpl in Hout. injection Hout as <- <-.
    assert (Hpast : (dt <=? end_)%Z = false) by (apply Z.leb_gt; lia).
    destruct days; cbn [ingestLoop sumRows fold_right]; rewrite Hpast;
      now rewrite Z.add_0_r.
  - destruct days as [|days]; [simpl in Hdays; lia|].
    assert (Hin : (dt <=? end_)%Z = true) by (apply Z.leb_le; lia).
    cbn [dayOutcomes] in Hout. cbn [ingestLoop]. rewrite Hin.
    destruct (processDay beyond Client ApiError query Store StoreError commit
                fuel w siteUrl (Date_isoDay dt)) as [[o w1]|]; [|discriminate].
    destruct (dayOutcomes beyond Client ApiError query Store StoreError commit
                Date_isoDay fuel siteUrl dates w1)
      as [[os w2]|] eqn:Hrest; [|discriminate].
    injection Hout as <- <-.
    assert (Hdays' : (List.length dates <= days)%nat)
      by (simpl in Hdays; lia).
    destruct o as [rows|error];
      rewrite (IH days w1 w2 _ os Hrest Hdays');
      cbn [sumRows fold_right rowsWritten];
      now rewrite ?Z.add_assoc, ?Z.add_0_r.
Qed.

Lemma DayRuns_processDay (fuel : nat) (siteUrl : string) (d : Z)
    (w w' : World Client Store) (o : DayOutcome StoreError) :
  DayRuns beyond Client ApiError query Store StoreError commit Date_isoDay
    fuel siteUrl d w o w' ->
  processDay beyond Client ApiError query Store StoreError commit
    fuel w siteUrl (Date_isoDay d)
  = Some (o, w').
Proof.
  intros Hrun. unfold processDay.
  destruct Hrun as [message client' log Hfetch
                   |client' log Hfetch
                   |rawRows client' log error db' calls Hfetch Hrows Hwrite
                   |rawRows client' log db' calls Hfetch Hrows Hwrite];
    rewrite Hfetch; try reflexivity;
    (destruct rawRows as [|r rs]; [contradiction|]);
    cbn [List.length Nat.ltb Nat.leb]; rewrite Hwrite;
    now rewrite ?length_map.
Qed.

Lemma RangeRuns_dayOutcomes (fuel : nat) (siteUrl : string) :
  forall (days : list Z) (w w' : World Client Store)
         (outcomes : list (DayOutcome StoreError)),
    RangeRuns beyond Client ApiError query Store StoreError commit Date_isoDay
      fuel siteUrl days w outcomes w' ->
    dayOutcomes beyond Client ApiError query Store StoreError commit
      Date_isoDay fuel siteUrl days w
    = Some (outcomes, w').
Proof.
  intros days w w' outcomes Hrun.
  induction Hrun as [w|d days w w1 w' o os Hday Hrest IH]; [reflexivity|].
  cbn [dayOutcomes]. now rewrite (DayRuns_processDay _ _ _ _ _ _ Hday), IH.
Qed.


End OrchestratorFacts.



(** * Further properties of the service *)

(** ** The normaliser, on every row *)

Lemma concat_slashes_nonempty (a b : string) : a ++ "//" ++ b <> "".
Proof. destruct a; discriminate. Qed.

Lemma canonicalUrl_nonempty (beyond : string -> option URLObject) (page : string) :
  canonicalUrl beyond page <> "".
Proof.
  unfold canonicalUrl. destruct (newURL beyond page) as [o|].
  - apply concat_slashes_nonempty.
  - destruct page; discriminate.
Qed.

Lemma keyOr_nonempty (k : Key) (d : string) : d <> "" -> keyOr k d <> "".
Proof.
  intros Hd. destruct k as [| |s]; try exact Hd.
  destruct s; [exact Hd|discriminate].
Qed.

Lemma upperChar_not_lower (c : ascii) : JS.isLower (JS.upperChar c) = false.
Proof.
  destruct c as [[] [] [] [] [] [] [] []]; reflexivity.
Qed.

Lemma toUpperCase_no_lower (s : string) :
  JS.forallChars (fun c => negb (JS.isLower c)) (JS.toUpperCase s) = true.
Proof.
  induction s as [|c s IH]; [reflexivity|].
  cbn [JS.toUpperCase JS.mapChars JS.forallChars].
  rewrite upperChar_not_lower. exact IH.
Qed.

Lemma toUpperCase_nonempty (s : string) : s <> "" -> JS.toUpperCase s <> "".
Proof. destruct s; [contradiction|discriminate]. Qed.

(** X1.  Whatever the row, the document's [normalizedUrl] is not the
    empty string: a page that parses gives at least ["//"] after its
    protocol, one that does not is kept, and a missing or empty page
    becomes the sentinel. *)
Theorem normalizeRow_url_never_empty :
  forall (beyond : string -> option URLObject) (rawRow : GscApiRow)
         (siteUrl date : string),
    normalizedUrl (normalizeRow beyond rawRow siteUrl date) <> "".
Proof.
  intros beyond rawRow siteUrl date. apply canonicalUrl_nonempty.
Qed.

(** X2.  Whatever the row (keys missing, [null] or empty), the
    document's [device], [country] and [searchAppearance] are not
    empty, and the [country] holds no lower-case ASCII letter. *)
Theorem normalizeRow_dimensions_filled :
  forall (beyond : string -> option URLObject) (rawRow : GscApiRow)
         (siteUrl date : string),
    device (normalizeRow beyond rawRow siteUrl date) <> ""
    /\ searchAppearance (normalizeRow beyond rawRow siteUrl date) <> ""
    /\ country (normalizeRow beyond rawRow siteUrl date) <> ""
    /\ JS.forallChars (fun c => negb (JS.isLower c))
         (country (normalizeRow beyond rawRow siteUrl date)) = true.
Proof.
  intros beyond rawRow siteUrl date. cbn [normalizeRow device searchAppearance country].
  repeat split.
  - apply keyOr_nonempty. discriminate.
  - apply keyOr_nonempty. discriminate.
  - apply toUpperCase_nonempty, keyOr_nonempty. discriminate.
  - apply toUpperCase_no_lower.
Qed.

(** ** The [utm_] filter of the normaliser *)

Lemma filter_delete_utm (key : string) (l : list (string * string)) :
  JS.startsWith (JS.toLowerCase key) "utm_" = true ->
  filter nonUtm (filter (fun p => negb (String.eqb (fst p) key)) l)
  = filter nonUtm l.
Proof.
  intros Hkey. induction l as [|[name value] l IH]; [reflexivity|].
  cbn [filter fst]. destruct (String.eqb name key) eqn:Hname; cbn [negb].
  - apply String.eqb_eq in Hname. subst name.
    unfold nonUtm at 2, isUtm. cbn [fst]. rewrite Hkey. exact IH.
  - cbn [filter]. now rewrite IH.
Qed.

Lemma dropUtm_keeps_others (value key : string) (o : URLObject) :
  filter nonUtm (searchParams (dropUtm value key o))
  = filter nonUtm (searchParams o)
  /\ URL.protocol (url (dropUtm value key o)) = URL.protocol (url o)
  /\ URL.hostname (url (dropUtm value key o)) = URL.hostname (url o)
  /\ URL.pathname (url (dropUtm value key o)) = URL.pathname (url o).
Proof.
  unfold dropUtm.
  destruct (JS.startsWith (JS.toLowerCase key) "utm_") eqn:Hkey;
    [|now repeat split].
  cbn [searchParams_delete searchParams url URL.protocol URL.hostname
       URL.pathname].
  now rewrite (filter_delete_utm key _ Hkey).
Qed.

Lemma forEachFrom_keeps_others :
  forall (fuel i : nat) (o : URLObject),
    filter nonUtm (searchParams (forEachFrom fuel i dropUtm o))
    = filter nonUtm (searchParams o)
    /\ URL.protocol (url (forEachFrom fuel i dropUtm o)) = URL.protocol (url o)
    /\ URL.hostname (url (forEachFrom fuel i dropUtm o)) = URL.hostname (url o)
    /\ URL.pathname (url (forEachFrom fuel i dropUtm o)) = URL.pathname (url o).
Proof.
  induction fuel as [|fuel IH]; intros i o; [now repeat split|].
  cbn [forEachFrom].
  destruct (nth_error (searchParams o) i) as [[key value]|];
    [|now repeat split].
  destruct (IH (S i) (dropUtm value key o)) as [Hl [Hp [Hh Hn]]].
  destruct (dropUtm_keeps_others value key o) as [Hl' [Hp' [Hh' Hn']]].
  repeat split; congruence.
Qed.

(** X3.  Whatever the parameters of the URL, the [forEach] that drops
    the [utm_] parameters removes no other parameter and changes
    neither their order nor their values, and it leaves the protocol,
    the host name and the path of the URL alone. *)
Theorem forEach_dropUtm_keeps_others :
  forall o : URLObject,
    filter nonUtm (searchParams (searchParams_forEach dropUtm o))
    = filter nonUtm (searchParams o)
    /\ URL.protocol (url (searchParams_forEach dropUtm o)) = URL.protocol (url o)
    /\ URL.hostname (url (searchParams_forEach dropUtm o)) = URL.hostname (url o)
    /\ URL.pathname (url (searchParams_forEach dropUtm o)) = URL.pathname (url o).
Proof.
  intros o. apply forEachFrom_keeps_others.
Qed.

Lemma filter_all {A : Type} (f : A -> bool) (l : list A) :
  forallb f l = true -> filter f l = l.
Proof.
  induction l as [|a l IH]; [reflexivity|]. cbn [forallb filter].
  intros H. apply andb_prop in H. destruct H as [Ha Hl].
  now rewrite Ha, IH.
Qed.

Lemma filter_keeps_all {A : Type} (f g : A -> bool) (l : list A) :
  (forall a, f a = true -> g a = true) ->
  forallb f l = true -> filter g l = l.
Proof.
  intros Hfg Hl. apply filter_all. rewrite forallb_forall in *.
  intros a Ha. auto.
Qed.

Lemma nonUtm_not_deleted (key : string) (p : string * string) :
  JS.startsWith (JS.toLowerCase key) "utm_" = true ->
  nonUtm p = true -> negb (String.eqb (fst p) key) = true.
Proof.
  intros Hkey Hp. destruct (String.eqb (fst p) key) eqn:Hname; [|reflexivity].
  apply String.eqb_eq in Hname. unfold nonUtm, isUtm in Hp.
  rewrite Hname, Hkey in Hp. discriminate.
Qed.

Lemma noAdjacentUtm_tail (a : string * string) (l : list (string * string)) :
  noAdjacentUtm (a :: l) = true -> noAdjacentUtm l = true.
Proof.
  cbn [noAdjacentUtm]. intros H. apply andb_prop in H. tauto.
Qed.

(** Deleting [utm_] parameters from a list without adjacent ones
    brings no two of them together. *)
Lemma noAdjacentUtm_delete (key : string) (l : list (string * string)) :
  JS.startsWith (JS.toLowerCase key) "utm_" = true ->
  noAdjacentUtm l = true ->
  noAdjacentUtm (filter (fun p => negb (String.eqb (fst p) key)) l) = true.
Proof.
  intros Hkey. induction l as [|a l IH]; [reflexivity|].
  intros Hl. pose proof (noAdjacentUtm_tail a l Hl) as Htail.
  specialize (IH Htail). cbn [filter].
  destruct (negb (String.eqb (fst a) key)) eqn:Ha; [|exact IH].
  cbn [noAdjacentUtm]. rewrite IH, andb_true_r.
  destruct l as [|b l]; [reflexivity|].
  cbn [noAdjacentUtm] in Hl. apply andb_prop in Hl. destruct Hl as [Hab _].
  destruct (isUtm a) eqn:Hua.
  - (* [b] is not a [utm_] parameter, so it stays *)
    cbn [andb] in Hab. apply negb_true_iff in Hab.
    assert (Hb : negb (String.eqb (fst b) key) = true)
      by (apply nonUtm_not_deleted; [exact Hkey|unfold nonUtm; now rewrite Hab]).
    cbn [filter]. rewrite Hb. cbn [andb]. now rewrite Hab.
  - destruct (filter (fun p => negb (String.eqb (fst p) key)) (b :: l));
      reflexivity.
Qed.

Lemma nth_error_split_skipn {A : Type} (l : list A) (i : nat) (a : A) :
  nth_error l i = Some a ->
  l = (firstn i l ++ a :: skipn (S i) l)%list /\ List.length (firstn i l) = i.
Proof.
  revert i. induction l as [|x l IH]; intros i Hnth.
  - destruct i; discriminate.
  - destruct i as [|i].
    + injection Hnth as ->. now split.
    + destruct (IH i Hnth) as [Hl Hlen]. split.
      * change (skipn (S (S i)) (x :: l)) with (skipn (S i) l).
        cbn [firstn app]. now rewrite <- Hl.
      * cbn [firstn List.length]. now rewrite Hlen.
Qed.

(** The iteration from index [i]: with the pairs before [i] free of
    [utm_] parameters and no two adjacent ones from [i] on, it leaves
    exactly the other parameters. *)
Lemma forEachFrom_drops_all :
  forall (fuel i : nat) (o : URLObject),
    forallb nonUtm (firstn i (searchParams o)) = true ->
    noAdjacentUtm (skipn i (searchParams o)) = true ->
    (List.length (searchParams o) <= i + fuel)%nat ->
    searchParams (forEachFrom fuel i dropUtm o)
    = filter nonUtm (searchParams o).
Proof.
  assert (Hdone : forall i (o : URLObject),
             forallb nonUtm (firstn i (searchParams o)) = true ->
             (List.length (searchParams o) <= i)%nat ->
             searchParams o = filter nonUtm (searchParams o)).
  { intros i o Hpre Hlen. rewrite firstn_all2 in Hpre by exact Hlen.
    symmetry. now apply filter_all. }
  induction fuel as [|fuel IH]; intros i o Hpre Hadj Hlen.
  - cbn [forEachFrom]. apply (Hdone i); [exact Hpre|lia].
  - cbn [forEachFrom].
    destruct (nth_error (searchParams o) i) as [[key value]|] eqn:Hnth.
    2:{ apply (Hdone i); [exact Hpre|]. now apply nth_error_None. }
    destruct (nth_error_split_skipn _ _ _ Hnth) as [Hsplit Hprelen].
    assert (Hskip : skipn i (searchParams o)
                    = (key, value) :: skipn (S i) (searchParams o)).
    { rewrite Hsplit at 1. rewrite skipn_app, Hprelen, Nat.sub_diag.
      rewrite skipn_all2 by lia. reflexivity. }
    rewrite Hskip in Hadj.
    unfold dropUtm at 2.
    destruct (JS.startsWith (JS.toLowerCase key) "utm_") eqn:Hkey.
    + (* the pair is deleted: what followed it moves to index [i] *)
      destruct (dropUtm_keeps_others value key o) as [Hothers _].
      unfold dropUtm in Hothers. rewrite Hkey in Hothers.
      rewrite <- Hothers.
      assert (Hlist : searchParams (searchParams_delete key o)
                = (firstn i (searchParams o)
                   ++ filter (fun p => negb (String.eqb (fst p) key))
                        (skipn (S i) (searchParams o)))%list).
      { cbn [searchParams_delete searchParams]. rewrite Hsplit at 1.
        rewrite filter_app. cbn [filter fst]. rewrite String.eqb_refl.
        cbn [negb]. f_equal.
        apply (filter_keeps_all nonUtm); [|exact Hpre].
        intros p. now apply nonUtm_not_deleted. }
      apply IH.
      * rewrite Hlist, firstn_app, Hprelen.
        rewrite firstn_all2 by lia.
        replace (S i - i)%nat with 1%nat by lia.
        rewrite forallb_app, Hpre. cbn [andb].
        destruct (skipn (S i) (searchParams o)) as [|b rest]; [reflexivity|].
        cbn [noAdjacentUtm] in Hadj. apply andb_prop in Hadj.
        destruct Hadj as [Hab _].
        assert (Hua : isUtm (key, value) = true) by exact Hkey.
        rewrite Hua in Hab. cbn [andb] in Hab.
        assert (Hb : nonUtm b = true) by exact Hab.
        cbn [filter]. rewrite (nonUtm_not_deleted key b Hkey Hb).
        cbn [firstn forallb]. now rewrite Hb.
      * rewrite Hlist, skipn_app, Hprelen.
        rewrite skipn_all2 by lia.
        replace (S i - i)%nat with 1%nat by lia. cbn [app].
        pose proof (noAdjacentUtm_delete key _ Hkey
                      (noAdjacentUtm_tail _ _ Hadj)) as Hrest.
        destruct (filter (fun p => negb (String.eqb (fst p) key))
                    (skipn (S i) (searchParams o))) as [|b rest];
          [reflexivity|].
        cbn [skipn]. exact (noAdjacentUtm_tail _ _ Hrest).
      * cbn [searchParams_delete searchParams].
        pose proof (filter_length_le
                      (fun p => negb (String.eqb (fst p) key))
                      (searchParams o)).
        lia.
    + apply IH.
      * rewrite Hsplit at 1. rewrite firstn_app, Hprelen.
        rewrite firstn_all2 by lia.
        replace (S i - i)%nat with 1%nat by lia.
        rewrite forallb_app, Hpre. cbn [andb firstn forallb].
        unfold nonUtm, isUtm. cbn [fst]. now rewrite Hkey.
      * exact (noAdjacentUtm_tail _ _ Hadj).
      * lia.
Qed.

(** After a deletion the URL's query is the serialisation of the
    list, and it stays so. *)
Lemma forEachFrom_query :
  forall (fuel i : nat) (o : URLObject),
    forEachFrom fuel i dropUtm o = o
    \/ URL.search (url (forEachFrom fuel i dropUtm o))
       = searchOf (searchParams (forEachFrom fuel i dropUtm o)).
Proof.
  induction fuel as [|fuel IH]; intros i o; [now left|].
  cbn [forEachFrom].
  destruct (nth_error (searchParams o) i) as [[key value]|]; [|now left].
  destruct (JS.startsWith (JS.toLowerCase key) "utm_") eqn:Hkey.
  2:{ replace (dropUtm value key o) with o
        by (unfold dropUtm; now rewrite Hkey).
      apply IH. }
  replace (dropUtm value key o) with (searchParams_delete key o)
    by (unfold dropUtm; now rewrite Hkey).
  right. destruct (IH (S i) (searchParams_delete key o)) as [Hsame|Hsync];
    [|exact Hsync].
  rewrite Hsame. unfold URL.search, searchOf.
  cbn [searchParams_delete url searchParams URL.query].
  destruct (URLSearchParams.serialize
              (filter (fun p => negb (String.eqb (fst p) key))
                 (searchParams o))); reflexivity.
Qed.

Lemma filter_nonUtm_changes (l : list (string * string)) :
  existsb isUtm l = true -> l <> filter nonUtm l.
Proof.
  induction l as [|a l IH]; [discriminate|].
  cbn [existsb filter]. unfold nonUtm at 1.
  destruct (isUtm a); cbn [orb negb]; intros Hex Heq.
  - pose proof (filter_length_le nonUtm l) as Hlen.
    apply (f_equal (@List.length _)) in Heq. cbn [List.length] in Heq. lia.
  - injection Heq as Heq. exact (IH Hex Heq).
Qed.

(** X4.  For a page that parses and in which no [utm_] parameter is
    directly followed by another one, the canonical URL is the
    protocol, ["//"], the lower-cased host, the path without one
    trailing slash, and a query that holds exactly the other
    parameters in their order (re-serialised when a parameter was
    dropped, untouched when there was none to drop). *)
Theorem canonicalUrl_drops_all_utm :
  forall (beyond : string -> option URLObject) (page : string) (o : URLObject),
    newURL beyond page = Some o ->
    noAdjacentUtm (searchParams o) = true ->
    canonicalUrl beyond page
    = URL.protocol (url o) ++ "//" ++ JS.toLowerCase (URL.hostname (url o))
      ++ stripTrailingSlash (URL.pathname (url o))
      ++ (if existsb isUtm (searchParams o)
          then searchOf (filter nonUtm (searchParams o))
          else URL.search (url o)).
Proof.
  intros beyond page o Hnew Hadj. unfold canonicalUrl. rewrite Hnew.
  destruct (forEachFrom_keeps_others (List.length (searchParams o)) 0 o)
    as [_ [Hp [Hh Hn]]].
  fold (searchParams_forEach dropUtm o) in Hp, Hh, Hn.
  rewrite Hp, Hh, Hn. fold (stripTrailingSlash (URL.pathname (url o))).
  do 4 f_equal.
  assert (Hall : searchParams (searchParams_forEach dropUtm o)
                 = filter nonUtm (searchParams o)).
  { apply forEachFrom_drops_all; [reflexivity|exact Hadj|lia]. }
  destruct (existsb isUtm (searchParams o)) eqn:Hex.
  - destruct (forEachFrom_query (List.length (searchParams o)) 0 o)
      as [Hsame|Hsync].
    + exfalso. apply (filter_nonUtm_changes _ Hex).
      rewrite <- Hall. unfold searchParams_forEach. now rewrite Hsame.
    + rewrite <- Hall. exact Hsync.
  - unfold searchParams_forEach.
    rewrite forEachFrom_nothing_to_drop; [reflexivity|].
    apply forallb_forall. intros p Hin.
    apply negb_true_iff.
    destruct (JS.startsWith (JS.toLowerCase (fst p)) "utm_") eqn:Hp';
      [|reflexivity].
    assert (Htrue : existsb isUtm (searchParams o) = true)
      by (apply existsb_exists; exists p; split; [exact Hin|exact Hp']).
    congruence.
Qed.

Lemma canonicalUrl_drops_all_utm_witness :
  noAdjacentUtm
    [("a", "1"); ("utm_source", "google"); ("b", "2"); ("utm_medium", "cpc")]
  = true
  /\ canonicalUrl Mock.noURL
       "https://example.com/page?a=1&utm_source=google&b=2&utm_medium=cpc"
     = "https://example.com/page?a=1&b=2".
Proof.
  split; [reflexivity|].
  refine (eq_trans
            (canonicalUrl_drops_all_utm Mock.noURL
               "https://example.com/page?a=1&utm_source=google&b=2&utm_medium=cpc"
               {| url := {| URL.protocol := "https:";
                            URL.hostname := "example.com";
                            URL.pathname := "/page";
                            URL.query :=
                              Some "a=1&utm_source=google&b=2&utm_medium=cpc" |};
                  searchParams :=
                    [("a", "1"); ("utm_source", "google"); ("b", "2");
                     ("utm_medium", "cpc")] |} _ _) _);
    vm_compute; reflexivity.
Defined.

(** ** The two copies of the normaliser *)

(** X5.  On a row whose device, country and search-appearance keys
    are present and not empty, the two copies of [normalizeRow] build
    the same document; the URL, query, date and measures agree on
    every row. *)
Theorem normalizeRow_copies_agree :
  forall (beyond : string -> option URLObject) (rawRow : GscApiRow)
         (site day : string) (ks : list (option string))
         (d c s : string),
    keys rawRow = Some ks ->
    nth_error ks 2 = Some (Some d) -> d <> "" ->
    nth_error ks 3 = Some (Some c) -> c <> "" ->
    nth_error ks 4 = Some (Some s) -> s <> "" ->
    Part002.normalizeRow beyond rawRow site day
    = let doc := normalizeRow beyond rawRow site day in
      {| Part002.siteUrl := siteUrl doc;
         Part002.normalizedUrl := normalizedUrl doc;
         Part002.query := query doc;
         Part002.date := date doc;
         Part002.doc_impressions := doc_impressions doc;
         Part002.doc_clicks := doc_clicks doc;
         Part002.doc_position := doc_position doc;
         Part002.doc_ctr := doc_ctr doc;
         Part002.device := Some (device doc);
         Part002.country := country doc;
         Part002.searchAppearance := Some (searchAppearance doc);
         Part002.ingestedAt := ingestedAt doc |}.
Proof.
  intros beyond rawRow site day ks d c s Hks Hd Hdne Hc Hcne Hs Hsne.
  unfold Part002.normalizeRow, normalizeRow. cbv zeta.
  cbn [siteUrl normalizedUrl query date doc_impressions doc_clicks
       doc_position doc_ctr device country searchAppearance ingestedAt].
  rewrite Hks. unfold keyAt. rewrite Hd, Hc, Hs.
  destruct d as [|d0 d]; [contradiction|].
  destruct c as [|c0 c]; [contradiction|].
  destruct s as [|s0 s]; [contradiction|].
  destruct (nth_error ks 0) as [[p|]|]; destruct (nth_error ks 1) as [[q|]|];
    reflexivity.
Qed.

Lemma normalizeRow_copies_agree_witness :
  Part002.device
    (Part002.normalizeRow Mock.noURL (Mock.pageRow "https://example.com/page")
       "sc-domain:example.com" "2023-01-01")
  = Some "device"
  /\ Part002.country
       (Part002.normalizeRow Mock.noURL (Mock.pageRow "https://example.com/page")
          "sc-domain:example.com" "2023-01-01")
     = country
         (normalizeRow Mock.noURL (Mock.pageRow "https://example.com/page")
            "sc-domain:example.com" "2023-01-01").
Proof.
  rewrite (normalizeRow_copies_agree Mock.noURL
             (Mock.pageRow "https://example.com/page")
             "sc-domain:example.com" "2023-01-01"
             [Some "https://example.com/page"; Some "query"; Some "device";
              Some "country"; Some "search"]
             "device" "country" "search");
    try reflexivity; try discriminate.
  split; reflexivity.
Defined.

(** ** The fetcher under rejections *)

Section RetryFacts.

Variable Client : Type.
Variable ApiError : Type.
Variable query : Client -> Request -> QueryOutcome ApiError * Client.

(** Rejections within the budget are retried with the same request
    and only move the attempt counter. *)
Lemma fetchLoop_retries (siteUrl date : string) (startRow : Z) :
  forall (k : nat) (client client1 : Client) (allRows : list GscApiRow)
         (attempt : Z) (log : list Request) (fuel : nat),
    Rejects Client ApiError query client
      (fetchRequest siteUrl date startRow) k client1 ->
    (attempt + Z.of_nat k <= maxRetries)%Z ->
    fetchLoop Client ApiError query (k + fuel) siteUrl date client allRows
      startRow attempt log
    = fetchLoop Client ApiError query fuel siteUrl date client1 allRows
        startRow (attempt + Z.of_nat k)%Z
        (log ++ repeat (fetchRequest siteUrl date startRow) k)%list.
Proof.
  induction k as [|k IH]; intros client client1 allRows attempt log fuel Hrej Hk.
  - simpl in Hrej. subst client1. cbn [repeat Nat.add Z.of_nat].
    now rewrite app_nil_r, Z.add_0_r.
  - destruct Hrej as [error [client' [Hquery Hrest]]].
    rewrite Nat.add_succ_l, fetchLoop_step, Hquery.
    assert (Hretry : (attempt <? maxRetries)%Z = true) by (apply Z.ltb_lt; lia).
    rewrite Hretry, (IH client' client1 allRows _ _ fuel Hrest) by lia.
    cbn [repeat]. rewrite <- app_assoc. cbn [app].
    now replace (attempt + 1 + Z.of_nat k)%Z with (attempt + Z.of_nat (S k))%Z
      by lia.
Qed.

(** The loop over pages that are each answered within the retry
    budget: the attempt counter starts from zero at every page. *)
Lemma fetchLoop_flaky_pages (siteUrl date : string) (final : Client) :
  forall (pages : list (nat * list GscApiRow)) (client : Client)
         (allRows : list GscApiRow) (startRow : Z) (log : list Request)
         (fuel : nat),
    withinBudget pages ->
    FlakyPages Client ApiError query client siteUrl date startRow pages final ->
    fetchLoop Client ApiError query
      (List.length (pagesLog siteUrl date startRow pages) + fuel)
      siteUrl date client allRows startRow 0 log
    = fetchLoop Client ApiError query fuel siteUrl date final
        (allRows ++ concat (map snd pages))%list
        (startRow + Z.of_nat (List.length pages) * rowLimit)%Z 0
        (log ++ pagesLog siteUrl date startRow pages)%list.
Proof.
  induction pages as [|[k page] pages IH];
    intros client allRows startRow log fuel Hbudget Hflaky.
  - simpl in Hflaky. subst final. cbn [pagesLog List.length Nat.add map concat].
    now rewrite !app_nil_r, Z.add_0_r.
  - destruct Hflaky as [client1 [client2 [Hrej [Hquery Hrest]]]].
    inversion Hbudget as [|? ? [Hk Hfull] Hbudget']; subst. cbn [fst snd] in *.
    destruct (full_page_cons page Hfull) as [r [rs ->]].
    cbn [pagesLog]. rewrite length_app, repeat_length.
    replace (S k + List.length (pagesLog siteUrl date (startRow + rowLimit) pages)
             + fuel)%nat
      with (k + S (List.length (pagesLog siteUrl date (startRow + rowLimit) pages)
                   + fuel))%nat by lia.
    rewrite (fetchLoop_retries siteUrl date startRow k client client1
               allRows 0%Z log _ Hrej) by lia.
    rewrite fetchLoop_step, Hquery.
    assert (Heq : (Z.of_nat (List.length (r :: rs)) =? rowLimit)%Z = true)
      by (now apply Z.eqb_eq).
    rewrite Heq, Hfull.
    rewrite (IH client2 _ _ _ fuel Hbudget' Hrest).
    cbn [map concat snd List.length]. rewrite <- !app_assoc.
    replace (startRow + Z.of_nat (S (List.length pages)) * rowLimit)%Z
      with (startRow + rowLimit + Z.of_nat (List.length pages) * rowLimit)%Z
      by (unfold rowLimit; lia).
    replace (repeat (fetchRequest siteUrl date startRow) (S k))
      with (repeat (fetchRequest siteUrl date startRow) k
            ++ [fetchRequest siteUrl date startRow])%list.
    + now rewrite <- app_assoc.
    + clear. induction k as [|k IHk]; [reflexivity|].
      cbn [repeat app]. now rewrite IHk.
Qed.

End RetryFacts.

(** X7.  The retry budget is per page.  When every page request is
    rejected at most [maxRetries] times before it is answered (full
    pages first, then a shorter, empty or rows-less one), the fetcher
    returns the concatenation of the pages; each page was asked for
    once more than it was rejected, always with the same [startRow]. *)
Theorem fetch_retries_per_page :
  forall (Client ApiError : Type)
         (query : Client -> Request -> QueryOutcome ApiError * Client)
         (siteUrl date : string)
         (pages : list (nat * list GscApiRow)) (lastRetries : nat)
         (last : option (list GscApiRow))
         (client client1 client2 final : Client) (extra : nat),
    withinBudget pages ->
    (Z.of_nat lastRetries <= maxRetries)%Z ->
    (Z.of_nat (List.length (pageRows last)) < rowLimit)%Z ->
    FlakyPages Client ApiError query client siteUrl date 0 pages client1 ->
    Rejects Client ApiError query client1
      (fetchRequest siteUrl date (Z.of_nat (List.length pages) * rowLimit))
      lastRetries client2 ->
    query client2
      (fetchRequest siteUrl date (Z.of_nat (List.length pages) * rowLimit))
    = (Resolved last, final) ->
    fetchGSCDataForDate Client ApiError query
      (List.length (pagesLog siteUrl date 0 pages) + (lastRetries + S extra))
      client siteUrl date
    = Some (Fetched (concat (map snd pages) ++ pageRows last)%list, final,
            (pagesLog siteUrl date 0 pages
             ++ repeat
                  (fetchRequest siteUrl date
                     (Z.of_nat (List.length pages) * rowLimit))
                  (S lastRetries))%list).
Proof.
  intros Client ApiError query siteUrl date pages lastRetries last
    client client1 client2 final extra Hbudget Hlast Hshort Hpages Hrej Hquery.
  unfold fetchGSCDataForDate.
  rewrite (fetchLoop_flaky_pages Client ApiError query siteUrl date client1
             pages client [] 0%Z [] _ Hbudget Hpages).
  rewrite Z.add_0_l.
  rewrite (fetchLoop_retries Client ApiError query siteUrl date _
             lastRetries client1 client2 _ 0%Z _ _ Hrej) by lia.
  rewrite (fetchLoop_pages Client ApiError query siteUrl date last final
             Hshort [] client2 _ _ _ _ (S extra)); [|constructor|exact Hquery|
                                                    simpl; lia].
  rewrite pageRequests_succ. cbn [pageRequests seq map concat app List.length].
  do 2 f_equal.
  rewrite <- app_assoc. f_equal.
  clear. induction lastRetries as [|k IHk]; [reflexivity|].
  cbn [repeat app]. now rewrite IHk.
Qed.

Lemma fetch_retries_per_page_witness :
  let page1 := repeat (Mock.pageOnlyRow "page1.html") (Z.to_nat rowLimit) in
  fetchGSCDataForDate Mock.Client string Mock.scripted 5
    [Rejected "API rate limit exceeded";
     Resolved (Some page1);
     Rejected "API rate limit exceeded";
     Rejected "Server error 503";
     Resolved (Some [Mock.pageOnlyRow "final-page.html"])]
    "sc-domain:example.com" "2023-01-01"
  = Some (Fetched (page1 ++ [Mock.pageOnlyRow "final-page.html"])%list, [],
          [fetchRequest "sc-domain:example.com" "2023-01-01" 0;
           fetchRequest "sc-domain:example.com" "2023-01-01" 0;
           fetchRequest "sc-domain:example.com" "2023-01-01" rowLimit;
           fetchRequest "sc-domain:example.com" "2023-01-01" rowLimit;
           fetchRequest "sc-domain:example.com" "2023-01-01" rowLimit]).
Proof.
  intros page1.
  refine (eq_trans
            (fetch_retries_per_page Mock.Client string Mock.scripted
               "sc-domain:example.com" "2023-01-01"
               [(1%nat, page1)] 2
               (Some [Mock.pageOnlyRow "final-page.html"])
               [Rejected "API rate limit exceeded";
                Resolved (Some page1);
                Rejected "API rate limit exceeded";
                Rejected "Server error 503";
                Resolved (Some [Mock.pageOnlyRow "final-page.html"])]
               [Rejected "API rate limit exceeded";
                Rejected "Server error 503";
                Resolved (Some [Mock.pageOnlyRow "final-page.html"])]
               [Resolved (Some [Mock.pageOnlyRow "final-page.html"])]
               [] 0 _ _ _ _ _ _) _).
  - constructor; [|constructor]. split; [vm_compute; discriminate|].
    vm_compute. reflexivity.
  - vm_compute. discriminate.
  - vm_compute. reflexivity.
  - simpl. do 2 eexists.
    split; [do 2 eexists; split; reflexivity | split; reflexivity].
  - simpl. do 2 eexists. split; [reflexivity|].
    do 2 eexists. split; reflexivity.
  - reflexivity.
  - cbn [map snd concat app]. now rewrite app_nil_r.
Defined.

(** X8.  No partial result.  When a page request is rejected six times
    in a row, the fetcher fails with the message for that date,
    whatever number of pages it has fetched before, and the rows of
    those pages are not returned. *)
Theorem fetch_discards_partial :
  forall (Client ApiError : Type)
         (query : Client -> Request -> QueryOutcome ApiError * Client)
         (siteUrl date : string)
         (pages : list (nat * list GscApiRow))
         (client client1 final : Client) (extra : nat),
    withinBudget pages ->
    FlakyPages Client ApiError query client siteUrl date 0 pages client1 ->
    Rejects Client ApiError query client1
      (fetchRequest siteUrl date (Z.of_nat (List.length pages) * rowLimit))
      6 final ->
    fetchGSCDataForDate Client ApiError query
      (List.length (pagesLog siteUrl date 0 pages) + (6 + extra))
      client siteUrl date
    = Some (FetchFailed (fetchErrorMessage date), final,
            (pagesLog siteUrl date 0 pages
             ++ repeat
                  (fetchRequest siteUrl date
                     (Z.of_nat (List.length pages) * rowLimit)) 6)%list).
Proof.
  intros Client ApiError query siteUrl date pages client client1 final extra
    Hbudget Hpages Hrej.
  unfold fetchGSCDataForDate.
  rewrite (fetchLoop_flaky_pages Client ApiError query siteUrl date client1
             pages client [] 0%Z [] _ Hbudget Hpages).
  rewrite Z.add_0_l.
  now rewrite (fetchLoop_rejections Client ApiError query siteUrl date _ final
                 5 client1 _ 0%Z _ extra eq_refl Hrej).
Qed.

Lemma fetch_discards_partial_witness :
  let page1 := repeat (Mock.pageOnlyRow "page1.html") (Z.to_nat rowLimit) in
  exists log : list Request,
    fetchGSCDataForDate Mock.Client string Mock.scripted 7
      [Resolved (Some page1)] "sc-domain:example.com" "2023-01-01"
    = Some (FetchFailed
              "Failed to fetch GSC data for 2023-01-01 after 5 attempts.",
            [], log)
    /\ List.length log = 7%nat.
Proof.
  intros page1. eexists. split.
  - refine (fetch_discards_partial Mock.Client string Mock.scripted
              "sc-domain:example.com" "2023-01-01" [(0%nat, page1)]
              [Resolved (Some page1)] [] [] 0 _ _ _).
    + constructor; [|constructor]. split; [vm_compute; discriminate|].
      vm_compute. reflexivity.
    + simpl. do 2 eexists. split; [reflexivity|]. split; reflexivity.
    + simpl. repeat (do 2 eexists; split; [reflexivity|]). reflexivity.
  - reflexivity.
Defined.

(** ** What the fetcher asks for, against any client *)

Section RequestFacts.

Variable Client : Type.
Variable ApiError : Type.
Variable query : Client -> Request -> QueryOutcome ApiError * Client.

(** The loop entered with [k] full pages accumulated: every request
    it issues is for a whole number of pages, and it ends on a page
    that is not full or on the exhaustion error. *)
Lemma fetchLoop_invariant (siteUrl date : string) :
  forall (fuel : nat) (client : Client) (allRows : list GscApiRow)
         (k : nat) (attempt : Z) (log : list Request)
         (r : FetchResult) (client' : Client) (log' : list Request),
    Z.of_nat (List.length allRows) = (Z.of_nat k * rowLimit)%Z ->
    fetchLoop Client ApiError query fuel siteUrl date client allRows
      (Z.of_nat k * rowLimit)%Z attempt log
    = Some (r, client', log') ->
    exists new : list Request,
      log' = (log ++ fetchRequest siteUrl date (Z.of_nat k * rowLimit) :: new)%list
      /\ Forall (fun rq => exists j : nat,
                     rq = fetchRequest siteUrl date (Z.of_nat j * rowLimit))
           new
      /\ match r with
         | Fetched rows =>
             exists j : nat,
               List.last (fetchRequest siteUrl date (Z.of_nat k * rowLimit) :: new)
                 (fetchRequest siteUrl date 0)
               = fetchRequest siteUrl date (Z.of_nat j * rowLimit)
               /\ (Z.of_nat j * rowLimit <= Z.of_nat (List.length rows))%Z
               /\ (Z.of_nat (List.length rows) - Z.of_nat j * rowLimit
                   <> rowLimit)%Z
         | FetchFailed message => message = fetchErrorMessage date
         end.
Proof.
  induction fuel as [|fuel IH];
    intros client allRows k attempt log r client' log' Hrows Hrun;
    [discriminate|].
  rewrite fetchLoop_step in Hrun.
  destruct (query client (fetchRequest siteUrl date (Z.of_nat k * rowLimit)))
    as [[[[|row rows]|]|error] client1].
  - injection Hrun as <- <- <-. exists []. repeat split; [constructor|].
    exists k. split; [reflexivity|]. unfold rowLimit in *. lia.
  - destruct (Z.of_nat (List.length (row :: rows)) =? rowLimit)%Z eqn:Hfull.
    + apply Z.eqb_eq in Hfull. rewrite Hfull in Hrun.
      replace (Z.of_nat k * rowLimit + rowLimit)%Z
        with (Z.of_nat (S k) * rowLimit)%Z in Hrun by (unfold rowLimit; lia).
      apply IH in Hrun.
      2:{ rewrite length_app, Nat2Z.inj_add, Hrows, Hfull.
          unfold rowLimit. lia. }
      destruct Hrun as [new [Hlog [Hall Hend]]].
      exists (fetchRequest siteUrl date (Z.of_nat (S k) * rowLimit) :: new).
      split; [now rewrite Hlog, <- app_assoc|].
      split; [constructor; [now exists (S k)|exact Hall]|].
      destruct r as [rows'|message]; [|exact Hend].
      destruct Hend as [j Hj]. now exists j.
    + apply Z.eqb_neq in Hfull.
      injection Hrun as <- <- <-. exists []. repeat split; [constructor|].
      exists k. split; [reflexivity|].
      rewrite length_app, Nat2Z.inj_add, Hrows. lia.
  - injection Hrun as <- <- <-. exists []. repeat split; [constructor|].
    exists k. split; [reflexivity|]. unfold rowLimit in *. lia.
  - destruct (attempt <? maxRetries)%Z.
    + apply IH in Hrun; [|exact Hrows].
      destruct Hrun as [new [Hlog [Hall Hend]]].
      exists (fetchRequest siteUrl date (Z.of_nat k * rowLimit) :: new).
      split; [now rewrite Hlog, <- app_assoc|].
      split; [constructor; [now exists k|exact Hall]|].
      destruct r as [rows'|message]; [|exact Hend].
      destruct Hend as [j Hj]. now exists j.
    + injection Hrun as <- <- <-. exists []. repeat split. constructor.
Qed.

End RequestFacts.

(** X9.  Whatever the API client does, when the fetcher comes to an
    end its first request is for [startRow] 0, every request is for
    the given site and day with [rowLimit] 25000 and a [startRow]
    that is a whole number of pages, a result ends on a page that was
    not full, and a failure carries the message for the date. *)
Theorem fetch_requests_invariant :
  forall (Client ApiError : Type)
         (query : Client -> Request -> QueryOutcome ApiError * Client)
         (fuel : nat) (client client' : Client) (siteUrl date : string)
         (r : FetchResult) (log : list Request),
    fetchGSCDataForDate Client ApiError query fuel client siteUrl date
    = Some (r, client', log) ->
    hd_error log = Some (fetchRequest siteUrl date 0)
    /\ Forall (fun rq => exists j : nat,
                   rq = fetchRequest siteUrl date (Z.of_nat j * rowLimit))
         log
    /\ match r with
       | Fetched rows =>
           exists j : nat,
             List.last log (fetchRequest siteUrl date 0)
             = fetchRequest siteUrl date (Z.of_nat j * rowLimit)
             /\ (Z.of_nat j * rowLimit <= Z.of_nat (List.length rows))%Z
             /\ (Z.of_nat (List.length rows) - Z.of_nat j * rowLimit
                 <> rowLimit)%Z
       | FetchFailed message => message = fetchErrorMessage date
       end.
Proof.
  intros Client ApiError query fuel client client' siteUrl date r log Hrun.
  unfold fetchGSCDataForDate in Hrun.
  apply (fetchLoop_invariant Client ApiError query siteUrl date fuel client
           [] 0 0%Z [] r client' log eq_refl) in Hrun.
  destruct Hrun as [new [-> [Hall Hend]]]. cbn [app Z.of_nat Z.mul] in *.
  split; [reflexivity|].
  split; [constructor; [now exists 0%nat|exact Hall]|exact Hend].
Qed.

Lemma fetch_requests_invariant_witness :
  hd_error
    [fetchRequest "sc-domain:example.com" "2023-01-01" 0]
  = Some (fetchRequest "sc-domain:example.com" "2023-01-01" 0)
  /\ fetchGSCDataForDate Mock.Client string Mock.scripted 1
       [Resolved (Some [Mock.pageOnlyRow "final-page.html"])]
       "sc-domain:example.com" "2023-01-01"
     = Some (Fetched [Mock.pageOnlyRow "final-page.html"], [],
             [fetchRequest "sc-domain:example.com" "2023-01-01" 0]).
Proof.
  split; [|reflexivity].
  exact (proj1 (fetch_requests_invariant Mock.Client string Mock.scripted 1
                  [Resolved (Some [Mock.pageOnlyRow "final-page.html"])] []
                  "sc-domain:example.com" "2023-01-01"
                  (Fetched [Mock.pageOnlyRow "final-page.html"])
                  [fetchRequest "sc-domain:example.com" "2023-01-01" 0]
                  eq_refl)).
Defined.

(** ** The persister, against any store *)

Section PersisterShape.

Variable Store : Type.
Variable StoreError : Type.
Variable commit : Store -> list GscFirestoreDoc -> option StoreError * Store.

(** Whatever the store answers, the loop makes the calls of a run of
    consecutive batches and stops at the first rejected commit. *)
Lemma writeLoop_shape (path : string) (documents : list GscFirestoreDoc) :
  forall (fuel i : nat) (db : Store) (calls : list StoreCall),
    (List.length documents - i <= fuel)%nat ->
    exists (r : option StoreError) (db' : Store) (m : nat),
      writeLoop Store StoreError commit fuel path documents i db calls
      = Some (r, db', (calls ++ batchCalls path documents i m)%list)
      /\ (m = 0 \/ i + (m - 1) * batchSize < List.length documents)%nat
      /\ (r = None -> List.length documents <= i + m * batchSize)%nat
      /\ (r <> None -> 1 <= m)%nat.
Proof.
  induction fuel as [|fuel IH]; intros i db calls Hfuel.
  - exists None, db, 0%nat. cbn [batchCalls seq flat_map].
    rewrite app_nil_r. split; [apply writeLoop_done; lia|].
    repeat split; [now left|lia|congruence].
  - cbn [writeLoop].
    destruct (i <? List.length documents)%nat eqn:Hi.
    2:{ apply Nat.ltb_ge in Hi. exists None, db, 0%nat.
        cbn [batchCalls seq flat_map]. rewrite app_nil_r.
        repeat split; [now left|lia|congruence]. }
    apply Nat.ltb_lt in Hi.
    destruct (commit db (slice documents i)) as [[error|] db1].
    + exists (Some error), db1, 1%nat.
      rewrite batchCalls_succ. cbn [batchCalls seq flat_map].
      rewrite app_nil_r.
      repeat split; [right; simpl; lia|discriminate|lia].
    + destruct (IH (i + batchSize)%nat db1
                  (calls ++ CallBatch :: stageCalls path (slice documents i)
                         ++ [CallCommit (slice documents i)])%list)
        as [r [db' [m [Hrun [Hlast [Hall Hone]]]]]];
        [unfold batchSize; lia|].
      exists r, db', (S m). rewrite Hrun, batchCalls_succ, <- app_assoc.
      split; [reflexivity|].
      repeat split.
      * right. replace (S m - 1)%nat with m by lia.
        destruct Hlast as [->|Hlast]; [lia|].
        destruct m as [|m]; [lia|].
        replace (S m - 1)%nat with m in Hlast by lia. lia.
      * intros Hr. specialize (Hall Hr). lia.
      * lia.
Qed.

Lemma write_shape (db : Store) (path : string)
    (documents : list GscFirestoreDoc) :
  exists (r : option StoreError) (db' : Store) (n : nat),
    writeToFirestoreInBatches Store StoreError commit db path documents
    = Some (r, db', batchCalls path documents 0 n)
    /\ (n <= chunkCount (List.length documents))%nat
    /\ (r = None -> n = chunkCount (List.length documents))
    /\ (r <> None -> 1 <= n)%nat.
Proof.
  destruct (writeLoop_shape path documents (List.length documents) 0 db [])
    as [r [db' [n [Hrun [Hlast [Hall Hone]]]]]]; [lia|].
  exists r, db', n. split; [exact Hrun|].
  destruct (chunkCount_covers (List.length documents)) as [Hcov [Hclast _]].
  unfold batchSize in *.
  repeat split.
  - destruct Hlast as [->|Hlast]; lia.
  - intros Hr. specialize (Hall Hr).
    destruct Hlast as [->|Hlast]; destruct Hclast as [Hc|Hc]; lia.
  - exact Hone.
Qed.

End PersisterShape.

Lemma staged_app (xs ys : list StoreCall) :
  staged (xs ++ ys) = (staged xs ++ staged ys)%list.
Proof.
  induction xs as [|c xs IH]; [reflexivity|].
  destruct c; simpl; now rewrite ?IH.
Qed.

Lemma docRefs_app (xs ys : list StoreCall) :
  docRefs (xs ++ ys) = (docRefs xs + docRefs ys)%nat.
Proof.
  induction xs as [|c xs IH]; [reflexivity|].
  destruct c; simpl; now rewrite ?IH.
Qed.

Lemma collections_app (xs ys : list StoreCall) :
  collections (xs ++ ys) = (collections xs ++ collections ys)%list.
Proof.
  induction xs as [|c xs IH]; [reflexivity|].
  destruct c; simpl; now rewrite ?IH.
Qed.

Lemma stageCalls_facts (path : string) (chunk : list GscFirestoreDoc) :
  staged (stageCalls path chunk) = chunk
  /\ docRefs (stageCalls path chunk) = List.length chunk
  /\ collections (stageCalls path chunk) = repeat path (List.length chunk).
Proof.
  induction chunk as [|d chunk [IH1 [IH2 IH3]]]; [now repeat split|].
  cbn [stageCalls flat_map app staged docRefs collections List.length repeat].
  fold (stageCalls path chunk). now rewrite IH1, IH2, IH3.
Qed.

Lemma batchCalls_staging (path : string) (documents : list GscFirestoreDoc) :
  forall (n i : nat),
    staged (batchCalls path documents i n)
    = concat (commits (batchCalls path documents i n))
    /\ docRefs (batchCalls path documents i n)
       = List.length (staged (batchCalls path documents i n))
    /\ collections (batchCalls path documents i n)
       = repeat path (List.length (staged (batchCalls path documents i n))).
Proof.
  induction n as [|n IH]; intros i; [now repeat split|].
  destruct (IH (i + batchSize)%nat) as [IH1 [IH2 IH3]].
  destruct (stageCalls_facts path (slice documents i)) as [S1 [S2 S3]].
  rewrite batchCalls_succ.
  rewrite staged_app, docRefs_app, collections_app, commits_app.
  cbn [app staged docRefs collections commits].
  rewrite !staged_app, !docRefs_app, !collections_app, !commits_app.
  cbn [app staged docRefs collections commits].
  rewrite commits_stageCalls, S1, S2, S3, IH1, IH2, IH3.
  cbn [app concat]. rewrite !app_nil_r, !length_app, repeat_app, Nat.add_0_r.
  now rewrite <- IH1.
Qed.

(** X10.  Whatever the store answers, the persister comes to an end,
    and the batches whose commit it attempted are the first [n]
    chunks of the input, in order and once each: [n] is the number of
    chunks when it succeeds, and at least one when it fails. *)
Theorem write_attempts_prefix :
  forall (Store StoreError : Type)
         (commit : Store -> list GscFirestoreDoc -> option StoreError * Store)
         (db : Store) (path : string) (documents : list GscFirestoreDoc),
  exists (r : option StoreError) (db' : Store) (calls : list StoreCall)
         (n : nat),
    writeToFirestoreInBatches Store StoreError commit db path documents
    = Some (r, db', calls)
    /\ (n <= chunkCount (List.length documents))%nat
    /\ commits calls
       = map (fun j => slice documents (j * batchSize)) (seq 0 n)
    /\ concat (commits calls) = firstn (n * batchSize) documents
    /\ batchesCreated calls = n
    /\ (r = None ->
        n = chunkCount (List.length documents)
        /\ concat (commits calls) = documents)
    /\ (r <> None -> 1 <= n)%nat.
Proof.
  intros Store StoreError commit db path documents.
  destruct (write_shape Store StoreError commit db path documents)
    as [r [db' [n [Hrun [Hle [Hall Hone]]]]]].
  exists r, db', (batchCalls path documents 0 n), n.
  rewrite commits_batchCalls, batchesCreated_batchCalls, concat_slices.
  split; [exact Hrun|]. split; [exact Hle|].
  split; [apply map_ext; intros j; reflexivity|].
  split; [reflexivity|]. split; [reflexivity|].
  split; [|exact Hone].
  intros Hr. specialize (Hall Hr). split; [exact Hall|]. subst n.
  apply firstn_all2.
  now destruct (chunkCount_covers (List.length documents)) as [Hcov _].
Qed.

(** X11.  Whatever the store answers, every document of every batch
    attempted is staged exactly once, in input order, under a document
    reference created for it in the given collection; when the
    persister succeeds the documents staged are the whole input. *)
Theorem write_stages_each_document_once :
  forall (Store StoreError : Type)
         (commit : Store -> list GscFirestoreDoc -> option StoreError * Store)
         (db : Store) (path : string) (documents : list GscFirestoreDoc),
  exists (r : option StoreError) (db' : Store) (calls : list StoreCall),
    writeToFirestoreInBatches Store StoreError commit db path documents
    = Some (r, db', calls)
    /\ staged calls = concat (commits calls)
    /\ docRefs calls = List.length (staged calls)
    /\ collections calls = repeat path (List.length (staged calls))
    /\ (r = None -> staged calls = documents).
Proof.
  intros Store StoreError commit db path documents.
  destruct (write_shape Store StoreError commit db path documents)
    as [r [db' [n [Hrun [Hle [Hall Hone]]]]]].
  exists r, db', (batchCalls path documents 0 n).
  destruct (batchCalls_staging path documents n 0) as [H1 [H2 H3]].
  split; [exact Hrun|]. split; [exact H1|]. split; [exact H2|].
  split; [exact H3|].
  intros Hr. specialize (Hall Hr). subst n.
  rewrite H1, commits_batchCalls, concat_slices.
  apply firstn_all2.
  now destruct (chunkCount_covers (List.length documents)) as [Hcov _].
Qed.

(** ** The orchestrator's result *)

Section ResultFacts.

Variable beyond : string -> option URLObject.
Variable Client : Type.
Variable ApiError : Type.
Variable query : Client -> Request -> QueryOutcome ApiError * Client.
Variable Store : Type.
Variable StoreError : Type.
Variable commit : Store -> list GscFirestoreDoc -> option StoreError * Store.
Variable Date_parse : string -> option Z.
Variable Date_isoDay : Z -> string.
Variable Date_step : Z -> positive.

(** The running total never goes down. *)
Lemma ingestLoop_total_grows (fuel : nat) (siteUrl : string) (end_ : Z) :
  forall (days : nat) (dt : Z) (w w' : World Client Store) (total t : Z),
    ingestLoop beyond Client ApiError query Store StoreError commit
      Date_isoDay Date_step days fuel siteUrl dt end_ w total
    = Some (t, w') ->
    (total <= t)%Z.
Proof.
  induction days as [|days IH]; intros dt w w' total t Hrun;
    cbn [ingestLoop] in Hrun;
    destruct (dt <=? end_)%Z; try discriminate;
    try (injection Hrun as <- <-; lia).
  destruct (processDay beyond Client ApiError query Store StoreError commit
              fuel w siteUrl (Date_isoDay dt)) as [[[rows|error] w1]|];
    [| |discriminate]; apply IH in Hrun; lia.
Qed.

(** A range that holds no day makes no iteration. *)
Lemma ingestLoop_no_day (fuel : nat) (siteUrl : string) (dt end_ : Z)
    (w : World Client Store) (total : Z) (days : nat) :
  (end_ < dt)%Z ->
  ingestLoop beyond Client ApiError query Store StoreError commit
    Date_isoDay Date_step days fuel siteUrl dt end_ w total
  = Some (total, w).
Proof.
  intros Hlt.
  assert (Hgt : (dt <=? end_)%Z = false) by (apply Z.leb_gt; lia).
  destruct days; cbn [ingestLoop]; now rewrite Hgt.
Qed.

(** A persist whose commit number [k] is rejected after [k] accepted
    ones. *)
Lemma write_fails_at (db db1 db' : Store) (path : string)
    (documents : list GscFirestoreDoc) (k : nat) (error : StoreError) :
  (k * batchSize < List.length documents)%nat ->
  Commits Store StoreError commit db documents 0 k db1 ->
  commit db1 (slice documents (k * batchSize)) = (Some error, db') ->
  writeToFirestoreInBatches Store StoreError commit db path documents
  = Some (Some error, db', batchCalls path documents 0 (S k)).
Proof.
  intros Hk Hcommits Hfail. unfold writeToFirestoreInBatches.
  assert (Hfuel : exists fuel, List.length documents = (k + S fuel)%nat).
  { exists (List.length documents - k - 1)%nat. unfold batchSize in Hk. lia. }
  destruct Hfuel as [fuel ->].
  rewrite (writeLoop_commits Store StoreError commit path documents
             k 0 db db1 [] (S fuel) Hcommits).
  - cbn [writeLoop app Nat.add].
    assert (Hi : (k * batchSize <? List.length documents)%nat = true)
      by now apply Nat.ltb_lt.
    now rewrite Hi, Hfail, batchCalls_snoc.
  - destruct k as [|k]; [now left|right]. unfold batchSize in *. lia.
Qed.

End ResultFacts.

(** X12.  Whenever the orchestrator returns, [success] is [false]
    exactly when one of the three inputs is empty, in which case no
    row is counted and neither the API client nor the store has been
    used; and [totalRowsWritten] is never negative. *)
Theorem ingest_success_flag :
  forall (beyond : string -> option URLObject)
         (Client ApiError : Type)
         (query : Client -> Request -> QueryOutcome ApiError * Client)
         (Store StoreError : Type)
         (commit : Store -> list GscFirestoreDoc -> option StoreError * Store)
         (Date_parse : string -> option Z) (Date_isoDay : Z -> string)
         (Date_step : Z -> positive)
         (days fuel : nat) (w w' : World Client Store)
         (site startDate endDate : string) (r : IngestionResult),
    ingestGSCData beyond Client ApiError query Store StoreError commit
      Date_parse Date_isoDay Date_step days fuel w site startDate endDate
    = Some (r, w') ->
    (success r = false <-> site = "" \/ startDate = "" \/ endDate = "")
    /\ (success r = false -> totalRowsWritten r = 0%Z /\ w' = w)
    /\ (0 <= totalRowsWritten r)%Z.
Proof.
  intros beyond Client ApiError query Store StoreError commit
    Date_parse Date_isoDay Date_step days fuel w w' site startDate endDate r
    Hrun.
  unfold ingestGSCData in Hrun.
  destruct (String.eqb site "") eqn:Hs;
    [|destruct (String.eqb startDate "") eqn:Hsd;
      [|destruct (String.eqb endDate "") eqn:Hed]];
    cbn [orb] in Hrun;
    try (injection Hrun as <- <-; cbn [success totalRowsWritten];
         apply String.eqb_eq in Hs || apply String.eqb_eq in Hsd
         || apply String.eqb_eq in Hed;
         repeat split; auto; lia).
  apply String.eqb_neq in Hs, Hsd, Hed.
  assert (Hok : success r = true /\ (0 <= totalRowsWritten r)%Z).
  { destruct (Date_parse startDate) as [start|];
      [destruct (Date_parse endDate) as [end_|]|];
      try (injection Hrun as <- <-; cbn [success totalRowsWritten];
           split; [reflexivity|lia]).
    destruct (ingestLoop beyond Client ApiError query Store StoreError commit
                Date_isoDay Date_step days fuel site start
                end_ w 0%Z) as [[total w1]|] eqn:Hloop; [|discriminate].
    injection Hrun as <- <-. cbn [success totalRowsWritten].
    split; [reflexivity|].
    exact (ingestLoop_total_grows beyond Client ApiError query Store
             StoreError commit Date_isoDay Date_step fuel site end_ _ _ _ _ _
             _ Hloop). }
  destruct Hok as [Htrue Hpos]. rewrite Htrue.
  repeat split; try discriminate; try exact Hpos.
  intros [H|[H|H]]; contradiction.
Qed.

Lemma ingest_success_flag_witness :
  ingestGSCData Mock.noURL Mock.Client string Mock.scripted
    (list (list GscFirestoreDoc)) string Mock.accepting
    Mock.parseDay Mock.isoDay Mock.utcStep 3 7
    {| gscClient := [Resolved (Some [Mock.pageRow "https://example.com/a"])];
       db := [] |}
    "" "2023-01-01" "2023-01-03"
  = Some ({| success := false; totalRowsWritten := 0 |},
          {| gscClient := [Resolved (Some [Mock.pageRow "https://example.com/a"])];
             db := [] |})
  /\ (false = false <-> "" = "" \/ "2023-01-01" = "" \/ "2023-01-03" = "").
Proof.
  split; [reflexivity|].
  exact (proj1 (ingest_success_flag Mock.noURL Mock.Client string Mock.scripted
                  (list (list GscFirestoreDoc)) string Mock.accepting
                  Mock.parseDay Mock.isoDay Mock.utcStep 3 7
                  {| gscClient :=
                       [Resolved (Some [Mock.pageRow "https://example.com/a"])];
                     db := [] |}
                  {| gscClient :=
                       [Resolved (Some [Mock.pageRow "https://example.com/a"])];
                     db := [] |}
                  "" "2023-01-01" "2023-01-03"
                  {| success := false; totalRowsWritten := 0 |} eq_refl)).
Defined.

(** X13.  With the three inputs present, a range whose end lies
    before its start, or one of whose dates is invalid, is reported
    as a success with no row written, and neither the API client nor
    the store is used. *)
Theorem ingest_empty_range :
  forall (beyond : string -> option URLObject)
         (Client ApiError : Type)
         (query : Client -> Request -> QueryOutcome ApiError * Client)
         (Store StoreError : Type)
         (commit : Store -> list GscFirestoreDoc -> option StoreError * Store)
         (Date_parse : string -> option Z) (Date_isoDay : Z -> string)
         (Date_step : Z -> positive)
         (days fuel : nat) (w : World Client Store)
         (site startDate endDate : string),
    site <> "" -> startDate <> "" -> endDate <> "" ->
    match Date_parse startDate, Date_parse endDate with
    | Some start, Some end_ => (end_ < start)%Z
    | _, _ => True
    end ->
    ingestGSCData beyond Client ApiError query Store StoreError commit
      Date_parse Date_isoDay Date_step days fuel w site startDate endDate
    = Some ({| success := true; totalRowsWritten := 0 |}, w).
Proof.
  intros beyond Client ApiError query Store StoreError commit
    Date_parse Date_isoDay Date_step days fuel w site startDate endDate
    Hs Hsd Hed Hrange.
  unfold ingestGSCData.
  apply String.eqb_neq in Hs, Hsd, Hed. rewrite Hs, Hsd, Hed. cbn [orb].
  destruct (Date_parse startDate) as [start|]; [|reflexivity].
  destruct (Date_parse endDate) as [end_|]; [|reflexivity].
  now rewrite ingestLoop_no_day.
Qed.

Lemma ingest_empty_range_witness :
  ingestGSCData Mock.noURL Mock.Client string Mock.scripted
    (list (list GscFirestoreDoc)) string Mock.accepting
    Mock.parseDay Mock.isoDay Mock.utcStep 3 7
    {| gscClient := [Resolved (Some [Mock.pageRow "https://example.com/a"])];
       db := [] |}
    "sc-domain:example.com" "2023-01-05" "2023-01-02"
  = Some ({| success := true; totalRowsWritten := 0 |},
          {| gscClient := [Resolved (Some [Mock.pageRow "https://example.com/a"])];
             db := [] |}).
Proof.
  apply (ingest_empty_range Mock.noURL Mock.Client string Mock.scripted
           (list (list GscFirestoreDoc)) string Mock.accepting
           Mock.parseDay Mock.isoDay Mock.utcStep 3 7);
    try discriminate.
  vm_compute. reflexivity.
Defined.

(** X14.  A day whose persist is rejected at batch [k] is not counted
    at all, although the [k] batches before it were committed: on a
    one-day range the orchestrator reports success with no row
    written, and the store is left as those [k] commits and the
    rejected one made it. *)
Theorem ingest_partial_persist_uncounted :
  forall (beyond : string -> option URLObject)
         (Client ApiError : Type)
         (query : Client -> Request -> QueryOutcome ApiError * Client)
         (Store StoreError : Type)
         (commit : Store -> list GscFirestoreDoc -> option StoreError * Store)
         (Date_parse : string -> option Z) (Date_isoDay : Z -> string)
         (Date_step : Z -> positive)
         (days fuel : nat) (w : World Client Store)
         (site startDate endDate : string) (d : Z)
         (rawRows : list GscApiRow) (client' : Client) (log : list Request)
         (k : nat) (db1 db' : Store) (error : StoreError),
    site <> "" -> startDate <> "" -> endDate <> "" ->
    Date_parse startDate = Some d ->
    Date_parse endDate = Some d ->
    fetchGSCDataForDate Client ApiError query fuel (gscClient _ _ w) site
      (Date_isoDay d)
    = Some (Fetched rawRows, client', log) ->
    (k * batchSize < List.length rawRows)%nat ->
    Commits Store StoreError commit (db _ _ w)
      (map (fun row => normalizeRow beyond row site (Date_isoDay d)) rawRows)
      0 k db1 ->
    commit db1
      (slice
         (map (fun row => normalizeRow beyond row site (Date_isoDay d)) rawRows)
         (k * batchSize))
    = (Some error, db') ->
    ingestGSCData beyond Client ApiError query Store StoreError commit
      Date_parse Date_isoDay Date_step (S days) fuel w site startDate endDate
    = Some ({| success := true; totalRowsWritten := 0 |},
            {| gscClient := client'; db := db' |}).
Proof.
  intros beyond Client ApiError query Store StoreError commit
    Date_parse Date_isoDay Date_step days fuel w site startDate endDate d
    rawRows client' log k db1 db' error Hs Hsd Hed Hps Hpe Hfetch Hk Hcommits
    Hfail.
  assert (Hday : DayRuns beyond Client ApiError query Store StoreError commit
                   Date_isoDay fuel site d w (DayCaught (WriteError error))
                   {| gscClient := client'; db := db' |}).
  { eapply PersistFails; [exact Hfetch| |].
    - intros ->. simpl in Hk. lia.
    - apply (write_fails_at Store StoreError commit _ db1); [|exact Hcommits|exact Hfail].
      now rewrite length_map. }
  assert (Hout : RangeRuns beyond Client ApiError query Store StoreError
                   commit Date_isoDay fuel site [d] w
                   [DayCaught (WriteError error)]
                   {| gscClient := client'; db := db' |})
    by (eapply RangeDay; [exact Hday|apply RangeDone]).
  apply RangeRuns_dayOutcomes in Hout.
  unfold ingestGSCData.
  apply String.eqb_neq in Hs, Hsd, Hed.
  rewrite Hs, Hsd, Hed, Hps, Hpe. cbn [orb].
  assert (Hvisits : Visits Date_step d d [d]).
  { apply VisitsDay; [lia|]. apply VisitsDone. unfold Date_nextDay. lia. }
  rewrite (ingestLoop_outcomes beyond Client ApiError query Store StoreError
             commit Date_isoDay Date_step fuel site d d [d] Hvisits (S days) w
             {| gscClient := client'; db := db' |} 0%Z
             [DayCaught (WriteError error)] Hout); [reflexivity|].
  simpl. lia.
Qed.

Lemma ingest_partial_persist_uncounted_witness :
  let doc :=
    normalizeRow Mock.noURL (Mock.pageRow "https://example.com/a")
      "sc-domain:example.com" "2023-01-01" in
  ingestGSCData Mock.noURL Mock.Client string Mock.scripted
    Mock.Store string Mock.commit Mock.parseDay Mock.isoDay Mock.utcStep 1 1
    {| gscClient :=
         [Resolved (Some (repeat (Mock.pageRow "https://example.com/a") 501))];
       db := {| Mock.script := [None; Some "quota exceeded"];
                Mock.committed := [] |} |}
    "sc-domain:example.com" "2023-01-01" "2023-01-01"
  = Some ({| success := true; totalRowsWritten := 0 |},
          {| gscClient := [];
             db := {| Mock.script := [];
                      Mock.committed := [repeat doc 500] |} |}).
Proof.
  intros doc.
  apply (ingest_partial_persist_uncounted Mock.noURL Mock.Client string
           Mock.scripted Mock.Store string Mock.commit Mock.parseDay
           Mock.isoDay Mock.utcStep 0 1
           {| gscClient :=
                [Resolved
                   (Some (repeat (Mock.pageRow "https://example.com/a") 501))];
              db := {| Mock.script := [None; Some "quota exceeded"];
                       Mock.committed := [] |} |}
           "sc-domain:example.com" "2023-01-01" "2023-01-01"
           (19358 * Mock.msPerDay)%Z
           (repeat (Mock.pageRow "https://example.com/a") 501) []
           [fetchRequest "sc-domain:example.com" "2023-01-01" 0]
           1
           {| Mock.script := [Some "quota exceeded"];
              Mock.committed := [repeat doc 500] |}
           {| Mock.script := []; Mock.committed := [repeat doc 500] |}
           "quota exceeded");
    try discriminate; try (vm_compute; reflexivity).
  exists {| Mock.script := [Some "quota exceeded"];
            Mock.committed := [repeat doc 500] |}.
  split; [vm_compute; reflexivity|reflexivity].
Defined.

(** X6.  A [null] device key: [gsc.ts] stores the default
    ["UNKNOWN"], while the second copy, whose destructuring default
    replaces a missing key only, stores [null]. *)
Theorem normalizeRow_null_device :
  forall (beyond : string -> option URLObject) (rawRow : GscApiRow)
         (site day : string) (ks : list (option string)),
    keys rawRow = Some ks ->
    nth_error ks 2 = Some None ->
    device (normalizeRow beyond rawRow site day) = "UNKNOWN"
    /\ Part002.device (Part002.normalizeRow beyond rawRow site day) = None.
Proof.
  intros beyond rawRow site day ks Hks Hnull.
  unfold normalizeRow, Part002.normalizeRow. cbv zeta.
  cbn [device Part002.device]. rewrite Hks. unfold keyAt. rewrite Hnull.
  split; reflexivity.
Qed.

Lemma normalizeRow_null_device_witness :
  device
    (normalizeRow Mock.noURL
       {| keys := Some [Some "https://example.com/a"; Some "q"; None];
          clicks := None; impressions := None; ctr := None; position := None |}
       "sc-domain:example.com" "2023-01-01")
  = "UNKNOWN"
  /\ Part002.device
       (Part002.normalizeRow Mock.noURL
          {| keys := Some [Some "https://example.com/a"; Some "q"; None];
             clicks := None; impressions := None; ctr := None;
             position := None |}
          "sc-domain:example.com" "2023-01-01")
     = None.
Proof.
  apply (normalizeRow_null_device Mock.noURL
           {| keys := Some [Some "https://example.com/a"; Some "q"; None];
              clicks := None; impressions := None; ctr := None;
              position := None |}
           "sc-domain:example.com" "2023-01-01"
           [Some "https://example.com/a"; Some "q"; None]);
    reflexivity.
Defined.

(** ** Canonical URLs are read back as they were written *)

Section CharacterFacts.

Lemma plain_visible (c : ascii) :
  URL.isPlain c = true ->
  URL.isC0OrSpace c = false /\ URL.isTabOrNewline c = false.
Proof.
  destruct c as [[] [] [] [] [] [] [] []]; vm_compute; intros H;
    try discriminate H; split; reflexivity.
Qed.

Lemma domain_char (c : ascii) :
  URL.isDomainChar c = true ->
  URL.isPlain c = true /\ JS.oneOf "/?#" c = false
  /\ Ascii.eqb c "@" = false /\ JS.isChar ":" c = false
  /\ JS.isChar "/" c = false.
Proof.
  destruct c as [[] [] [] [] [] [] [] []]; vm_compute; intros H;
    try discriminate H; repeat split; reflexivity.
Qed.

Lemma lowerChar_facts (c : ascii) :
  JS.lowerChar (JS.lowerChar c) = JS.lowerChar c
  /\ URL.isDomainChar (JS.lowerChar c) = URL.isDomainChar c
  /\ Ascii.eqb (JS.lowerChar c) "." = Ascii.eqb c "."
  /\ JS.isDigit (JS.lowerChar c) = JS.isDigit c.
Proof.
  destruct c as [[] [] [] [] [] [] [] []]; vm_compute; repeat split;
    reflexivity.
Qed.

End CharacterFacts.

Section StringFacts.

Lemma forallChars_app (p : ascii -> bool) (s t : string) :
  JS.forallChars p (s ++ t) = JS.forallChars p s && JS.forallChars p t.
Proof.
  induction s as [|c s IH]; [reflexivity|].
  cbn [append JS.forallChars]. now rewrite IH, andb_assoc.
Qed.

Lemma forallChars_impl (p q : ascii -> bool) (s : string) :
  (forall c, p c = true -> q c = true) ->
  JS.forallChars p s = true -> JS.forallChars q s = true.
Proof.
  intros Hpq. induction s as [|c s IH]; [reflexivity|].
  cbn [JS.forallChars]. intros H. apply andb_prop in H. destruct H as [Hc Hs].
  now rewrite (Hpq c Hc), IH.
Qed.

Lemma forallChars_and (p q : ascii -> bool) (s : string) :
  JS.forallChars (fun c => p c && q c) s
  = JS.forallChars p s && JS.forallChars q s.
Proof.
  induction s as [|c s IH]; [reflexivity|].
  cbn [JS.forallChars]. rewrite IH.
  destruct (p c), (q c), (JS.forallChars p s); reflexivity.
Qed.

Lemma forallChars_list (p : ascii -> bool) (s : string) :
  JS.forallChars p s = forallb p (list_ascii_of_string s).
Proof.
  induction s as [|c s IH]; [reflexivity|].
  cbn [JS.forallChars list_ascii_of_string forallb]. now rewrite IH.
Qed.

Lemma forallChars_rev (p : ascii -> bool) (s : string) :
  JS.forallChars p s = true -> JS.forallChars p (JS.rev s) = true.
Proof.
  unfold JS.rev. rewrite !forallChars_list, list_ascii_of_string_of_list_ascii.
  rewrite !forallb_forall. intros H c Hin. apply H. now apply in_rev.
Qed.

Lemma rev_rev (s : string) : JS.rev (JS.rev s) = s.
Proof.
  unfold JS.rev.
  now rewrite list_ascii_of_string_of_list_ascii, rev_involutive,
    string_of_list_ascii_of_string.
Qed.

Lemma dropWhile_none (p : ascii -> bool) (s : string) :
  JS.forallChars (fun c => negb (p c)) s = true -> JS.dropWhile p s = s.
Proof.
  destruct s as [|c s]; [reflexivity|].
  cbn [JS.forallChars JS.dropWhile]. intros H. apply andb_prop in H.
  destruct H as [Hc _]. apply negb_true_iff in Hc. now rewrite Hc.
Qed.

Lemma dropWhile_forall (q p : ascii -> bool) (s : string) :
  JS.forallChars q s = true -> JS.forallChars q (JS.dropWhile p s) = true.
Proof.
  induction s as [|c s IH]; [reflexivity|].
  intros H. cbn [JS.dropWhile]. destruct (p c); [|exact H].
  cbn [JS.forallChars] in H. apply andb_prop in H. now apply IH.
Qed.

Lemma filterChars_all (p : ascii -> bool) (s : string) :
  JS.forallChars p s = true -> JS.filterChars p s = s.
Proof.
  induction s as [|c s IH]; [reflexivity|].
  cbn [JS.forallChars JS.filterChars]. intros H. apply andb_prop in H.
  destruct H as [Hc Hs]. now rewrite Hc, IH.
Qed.

(** An input written with plain characters is not trimmed. *)
Lemma plain_not_trimmed (s : string) :
  JS.forallChars URL.isPlain s = true ->
  URL.removeTabNewline (URL.trimC0Space s) = s.
Proof.
  intros Hs.
  assert (Hspace : JS.forallChars (fun c => negb (URL.isC0OrSpace c)) s = true).
  { apply (forallChars_impl URL.isPlain); [|exact Hs].
    intros c Hc. destruct (plain_visible c Hc) as [-> _]. reflexivity. }
  assert (Htab : JS.forallChars (fun c => negb (URL.isTabOrNewline c)) s = true).
  { apply (forallChars_impl URL.isPlain); [|exact Hs].
    intros c Hc. destruct (plain_visible c Hc) as [_ ->]. reflexivity. }
  unfold URL.trimC0Space, URL.removeTabNewline.
  rewrite (dropWhile_none _ s Hspace).
  rewrite (dropWhile_none _ (JS.rev s)) by now apply forallChars_rev.
  rewrite rev_rev. now apply filterChars_all.
Qed.

Lemma span_app (p : ascii -> bool) (s t : string) :
  JS.forallChars (fun c => negb (p c)) s = true ->
  match t with
  | EmptyString => True
  | String c _ => p c = true
  end ->
  JS.span p (s ++ t) = (s, t).
Proof.
  intros Hs Ht. induction s as [|c s IH].
  - destruct t as [|c t]; [reflexivity|]. cbn [append JS.span]. now rewrite Ht.
  - cbn [JS.forallChars] in Hs. apply andb_prop in Hs. destruct Hs as [Hc Hs].
    apply negb_true_iff in Hc. cbn [append JS.span]. now rewrite Hc, (IH Hs).
Qed.

Lemma append_empty (s : string) : s ++ "" = s.
Proof. induction s as [|c s IH]; [reflexivity|]. cbn [append]. now rewrite IH. Qed.

Lemma append_assoc (s t r : string) : (s ++ t) ++ r = s ++ t ++ r.
Proof. induction s as [|c s IH]; [reflexivity|]. cbn [append]. now rewrite IH. Qed.

Lemma span_none (p : ascii -> bool) (s : string) :
  JS.forallChars (fun c => negb (p c)) s = true -> JS.span p s = (s, "").
Proof.
  intros Hs. rewrite <- (append_empty s) at 1. now apply span_app.
Qed.

(** What [span] splits: the first part has no character satisfying
    [p], and both parts keep what holds of every character. *)
Lemma span_parts (q p : ascii -> bool) (s : string) :
  JS.forallChars q s = true ->
  JS.forallChars (fun c => q c && negb (p c)) (fst (JS.span p s)) = true
  /\ JS.forallChars q (snd (JS.span p s)) = true.
Proof.
  induction s as [|c s IH]; [now split|].
  intros H. cbn [JS.span]. destruct (p c) eqn:Hp; [now split|].
  cbn [JS.forallChars] in H. apply andb_prop in H. destruct H as [Hc Hs].
  destruct (IH Hs) as [Ha Hb]. destruct (JS.span p s) as [a b].
  cbn [fst snd JS.forallChars] in *. now rewrite Hc, Hp, Ha.
Qed.

Lemma split_nonempty (sep : ascii) (s : string) : JS.split sep s <> [].
Proof.
  destruct s as [|c s]; [discriminate|]. cbn [JS.split].
  destruct (Ascii.eqb c sep); [discriminate|].
  destruct (JS.split sep s); discriminate.
Qed.

Lemma split_none (sep : ascii) (s : string) :
  JS.forallChars (fun c => negb (Ascii.eqb c sep)) s = true ->
  JS.split sep s = [s].
Proof.
  induction s as [|c s IH]; [reflexivity|].
  cbn [JS.forallChars JS.split]. intros H. apply andb_prop in H.
  destruct H as [Hc Hs]. apply negb_true_iff in Hc. now rewrite Hc, (IH Hs).
Qed.

(** The pieces of a split hold no separator, and keep what holds of
    every character. *)
Lemma split_pieces (q : ascii -> bool) (sep : ascii) (s : string) :
  JS.forallChars q s = true ->
  forallb (JS.forallChars (fun c => q c && negb (Ascii.eqb c sep)))
    (JS.split sep s) = true.
Proof.
  induction s as [|c s IH]; [reflexivity|].
  cbn [JS.forallChars]. intros H. apply andb_prop in H. destruct H as [Hc Hs].
  specialize (IH Hs). cbn [JS.split]. destruct (Ascii.eqb c sep) eqn:Hsep.
  - cbn [forallb JS.forallChars]. exact IH.
  - destruct (JS.split sep s) as [|x xs];
      cbn [forallb JS.forallChars] in *; now rewrite Hc, Hsep.
Qed.

Lemma split_app_sep (sep : ascii) (s t : string) :
  JS.forallChars (fun c => negb (Ascii.eqb c sep)) s = true ->
  JS.split sep (s ++ String sep t) = s :: JS.split sep t.
Proof.
  induction s as [|c s IH]; intros Hs.
  - cbn [append JS.split]. now rewrite Ascii.eqb_refl.
  - cbn [JS.forallChars] in Hs. apply andb_prop in Hs. destruct Hs as [Hc Hs].
    apply negb_true_iff in Hc. cbn [append JS.split]. now rewrite Hc, (IH Hs).
Qed.

Lemma split_map (f : ascii -> ascii) (sep : ascii) (s : string) :
  (forall c, Ascii.eqb (f c) sep = Ascii.eqb c sep) ->
  JS.split sep (JS.mapChars f s) = map (JS.mapChars f) (JS.split sep s).
Proof.
  intros Hf. induction s as [|c s IH]; [reflexivity|].
  cbn [JS.mapChars JS.split]. rewrite Hf, IH.
  destruct (Ascii.eqb c sep); [reflexivity|].
  destruct (JS.split sep s); reflexivity.
Qed.

Lemma lastChar_app (s t : string) :
  t <> "" -> JS.lastChar (s ++ t) = JS.lastChar t.
Proof.
  intros Ht. induction s as [|c s IH]; [reflexivity|].
  cbn [append]. change (JS.lastChar (String c (s ++ t)))
    with (match s ++ t with
          | EmptyString => Some c
          | String _ _ => JS.lastChar (s ++ t)
          end).
  destruct (s ++ t) eqn:Hst; [|exact IH].
  destruct s; [contradiction|discriminate].
Qed.

Lemma length_append (s t : string) :
  String.length (s ++ t) = (String.length s + String.length t)%nat.
Proof.
  induction s as [|c s IH]; [reflexivity|]. cbn [append String.length].
  now rewrite IH.
Qed.

Lemma substring_prefix (s t : string) :
  substring 0 (String.length s) (s ++ t) = s.
Proof.
  induction s as [|c s IH].
  - destruct t; reflexivity.
  - cbn [append String.length substring]. now rewrite IH.
Qed.

Lemma sliceDropLast_app (s : string) (c : ascii) :
  JS.sliceDropLast (s ++ String c "") = s.
Proof.
  unfold JS.sliceDropLast. rewrite length_append. cbn [String.length].
  replace (String.length s + 1 - 1)%nat with (String.length s) by lia.
  apply substring_prefix.
Qed.

End StringFacts.

Section PathFacts.

Lemma pathChar (c : ascii) :
  isPathChar c = true ->
  URL.isPlain c = true /\ Ascii.eqb c "/" = false
  /\ JS.oneOf "?#" c = false.
Proof.
  destruct c as [[] [] [] [] [] [] [] []]; vm_compute; intros H;
    try discriminate H; repeat split; reflexivity.
Qed.

Lemma isSegment_chars (seg : string) :
  isSegment seg = true ->
  JS.forallChars isPathChar seg = true
  /\ URL.isDoubleDot seg = false /\ URL.isSingleDot seg = false.
Proof.
  unfold isSegment. intros H. apply andb_prop in H. destruct H as [H Hs].
  apply andb_prop in H. destruct H as [Hc Hd].
  apply negb_true_iff in Hs, Hd. now repeat split.
Qed.

Lemma serializePath_app (a b : list string) :
  URL.serializePath (a ++ b)
  = URL.serializePath a ++ URL.serializePath b.
Proof.
  induction a as [|seg a IH]; [reflexivity|].
  change (URL.serializePath ((seg :: a) ++ b))
    with ("/" ++ seg ++ URL.serializePath (a ++ b)).
  change (URL.serializePath (seg :: a))
    with ("/" ++ seg ++ URL.serializePath a).
  rewrite IH. cbn [append]. now rewrite append_assoc.
Qed.

Lemma serializePath_chars (q : ascii -> bool) (segs : list string) :
  q "/"%char = true ->
  forallb (JS.forallChars q) segs = true ->
  JS.forallChars q (URL.serializePath segs) = true.
Proof.
  intros Hslash. induction segs as [|seg segs IH]; [reflexivity|].
  cbn [forallb]. intros H. apply andb_prop in H. destruct H as [Hseg Hsegs].
  change (URL.serializePath (seg :: segs))
    with (String "/" (seg ++ URL.serializePath segs)).
  cbn [JS.forallChars].
  now rewrite Hslash, forallChars_app, Hseg, (IH Hsegs).
Qed.

Lemma segments_chars (segs : list string) :
  forallb isSegment segs = true ->
  forallb (JS.forallChars isPathChar) segs = true.
Proof.
  rewrite !forallb_forall. intros H seg Hin.
  now destruct (isSegment_chars seg (H seg Hin)).
Qed.

(** Splitting a serialised path at its slashes gives the segments
    back. *)
Lemma split_serializePath :
  forall (segs : list string) (seg : string),
    forallb (JS.forallChars isPathChar) (seg :: segs) = true ->
    JS.split "/" (seg ++ URL.serializePath segs) = seg :: segs.
Proof.
  assert (Hsep : forall s, JS.forallChars isPathChar s = true ->
            JS.forallChars (fun c => negb (Ascii.eqb c "/")) s = true).
  { intros s. apply forallChars_impl. intros c Hc.
    destruct (pathChar c Hc) as [_ [-> _]]. reflexivity. }
  induction segs as [|s2 segs IH]; intros seg H; cbn [forallb] in H;
    apply andb_prop in H; destruct H as [Hseg Hsegs].
  - cbn [URL.serializePath fold_right]. rewrite append_empty.
    apply split_none. now apply Hsep.
  - change (URL.serializePath (s2 :: segs))
      with (String "/" (s2 ++ URL.serializePath segs)).
    rewrite split_app_sep by now apply Hsep.
    now rewrite (IH s2 Hsegs).
Qed.

Lemma pathState_plain :
  forall (segs path : list string),
    forallb isSegment segs = true ->
    URL.pathState segs path = (path ++ segs)%list.
Proof.
  induction segs as [|seg segs IH]; intros path H.
  - cbn [URL.pathState]. now rewrite app_nil_r.
  - cbn [forallb] in H. apply andb_prop in H. destruct H as [Hseg Hsegs].
    destruct (isSegment_chars seg Hseg) as [_ [Hdd Hsd]].
    cbn [URL.pathState]. rewrite Hdd, Hsd, (IH _ Hsegs).
    now rewrite <- app_assoc.
Qed.

Lemma forallb_removelast {A : Type} (f : A -> bool) (l : list A) :
  forallb f l = true -> forallb f (removelast l) = true.
Proof.
  induction l as [|a l IH]; [reflexivity|].
  cbn [forallb]. intros H. apply andb_prop in H. destruct H as [Ha Hl].
  cbn [removelast]. destruct l as [|b l]; [reflexivity|].
  cbn [forallb] in *. now rewrite Ha, (IH Hl).
Qed.

(** The path state leaves segments only. *)
Lemma pathState_segments :
  forall (segs path : list string),
    forallb (JS.forallChars isPathChar) segs = true ->
    forallb isSegment path = true ->
    forallb isSegment (URL.pathState segs path) = true.
Proof.
  induction segs as [|seg segs IH]; intros path Hsegs Hpath; [exact Hpath|].
  cbn [forallb] in Hsegs. apply andb_prop in Hsegs.
  destruct Hsegs as [Hseg Hsegs].
  cbn [URL.pathState]. apply IH; [exact Hsegs|].
  assert (Hempty : isSegment "" = true) by reflexivity.
  pose proof (forallb_removelast _ _ Hpath) as Hshort.
  destruct (URL.isDoubleDot seg) eqn:Hdd;
    [|destruct (URL.isSingleDot seg) eqn:Hsd];
    destruct segs; rewrite ?forallb_app; cbn [forallb];
    rewrite ?Hshort, ?Hpath, ?Hempty; try reflexivity;
    unfold isSegment; now rewrite Hseg, Hdd, Hsd.
Qed.

Lemma pathState_nonempty :
  forall (segs path : list string),
    segs <> [] -> URL.pathState segs path <> [].
Proof.
  induction segs as [|seg segs IH]; intros path Hne; [contradiction|].
  destruct segs as [|s2 segs].
  - cbn [URL.pathState].
    destruct (URL.isDoubleDot seg); [|destruct (URL.isSingleDot seg)];
      intros H; apply app_eq_nil in H; destruct H as [_ H]; discriminate.
  - change (URL.pathState (seg :: s2 :: segs) path)
      with (URL.pathState (s2 :: segs)
              (if URL.isDoubleDot seg then removelast path
               else if URL.isSingleDot seg then path
               else (path ++ [seg])%list)).
    apply IH. discriminate.
Qed.

Lemma lastChar_forall (p : ascii -> bool) (s : string) (c : ascii) :
  JS.lastChar s = Some c -> JS.forallChars p s = true -> p c = true.
Proof.
  induction s as [|a s IH]; [discriminate|].
  cbn [JS.forallChars]. intros Hlast H. apply andb_prop in H.
  destruct H as [Ha Hs]. destruct s as [|b s].
  - injection Hlast as <-. exact Ha.
  - now apply IH.
Qed.

Lemma lastChar_some (s : string) : s <> "" -> exists c, JS.lastChar s = Some c.
Proof.
  induction s as [|a s IH]; [contradiction|]. intros _.
  destruct s as [|b s]; [now exists a|].
  destruct IH as [c Hc]; [discriminate|]. now exists c.
Qed.

(** The path that [normalizeRow] appends is again a serialised list
    of segments. *)
Lemma strip_serializePath (segs : list string) :
  segs <> [] ->
  forallb isSegment segs = true ->
  exists segs' : list string,
    segs' <> [] /\ forallb isSegment segs' = true
    /\ stripTrailingSlash (URL.serializePath segs) = URL.serializePath segs'.
Proof.
  intros Hne Hsegs. destruct (exists_last Hne) as [init [last ->]].
  rewrite forallb_app in Hsegs. apply andb_prop in Hsegs.
  destruct Hsegs as [Hinit Hlast]. cbn [forallb] in Hlast.
  rewrite andb_true_r in Hlast.
  assert (Hpath : URL.serializePath (init ++ [last])
                  = (URL.serializePath init ++ "/") ++ last).
  { rewrite serializePath_app, append_assoc.
    change (URL.serializePath [last]) with (String "/" (last ++ "")).
    now rewrite append_empty. }
  unfold stripTrailingSlash.
  destruct last as [|c last].
  - rewrite Hpath, append_empty.
    destruct init as [|seg init]; [now exists [""]|].
    exists (seg :: init). split; [discriminate|]. split; [exact Hinit|].
    assert (Hlen : (1 <? String.length (URL.serializePath (seg :: init) ++ "/"))%nat
                   = true).
    { apply Nat.ltb_lt. rewrite length_append.
      change (URL.serializePath (seg :: init))
        with (String "/" (seg ++ URL.serializePath init)).
      cbn [String.length]. lia. }
    assert (Hend : JS.endsWithSlash (URL.serializePath (seg :: init) ++ "/") = true).
    { unfold JS.endsWithSlash. now rewrite lastChar_app. }
    rewrite Hlen, Hend. cbn [andb]. apply sliceDropLast_app.
  - exists (init ++ [String c last])%list.
    split; [now destruct init|]. split.
    { rewrite forallb_app. cbn [forallb]. now rewrite Hinit, Hlast. }
    assert (Hend : JS.endsWithSlash (URL.serializePath (init ++ [String c last]))
                   = false).
    { unfold JS.endsWithSlash. rewrite Hpath.
      rewrite lastChar_app by discriminate.
      destruct (lastChar_some (String c last)) as [x Hx]; [discriminate|].
      rewrite Hx. destruct (isSegment_chars _ Hlast) as [Hchars _].
      pose proof (lastChar_forall _ _ _ Hx Hchars) as Hpc.
      now destruct (pathChar x Hpc) as [_ [-> _]]. }
    now rewrite Hend, andb_false_r.
Qed.

End PathFacts.

Section HostFacts.

Lemma toLowerCase_idem (s : string) :
  JS.toLowerCase (JS.toLowerCase s) = JS.toLowerCase s.
Proof.
  unfold JS.toLowerCase. induction s as [|c s IH]; [reflexivity|].
  cbn [JS.mapChars]. rewrite IH.
  now destruct (lowerChar_facts c) as [-> _].
Qed.

Lemma forallChars_map (p : ascii -> bool) (f : ascii -> ascii) (s : string) :
  JS.forallChars p (JS.mapChars f s) = JS.forallChars (fun c => p (f c)) s.
Proof.
  induction s as [|c s IH]; [reflexivity|].
  cbn [JS.mapChars JS.forallChars]. now rewrite IH.
Qed.

Lemma existsb_map_lower (f : string -> bool) (l : list string) :
  existsb (fun x => f (JS.toLowerCase x)) (map JS.toLowerCase l)
  = existsb (fun x => f (JS.toLowerCase x)) l.
Proof.
  induction l as [|x l IH]; [reflexivity|]. cbn [map existsb].
  now rewrite IH, toLowerCase_idem.
Qed.

Lemma startsWithDigit_lower (s : string) :
  URL.startsWithDigit (JS.toLowerCase s) = URL.startsWithDigit s.
Proof.
  destruct s as [|c s]; [reflexivity|]. cbn.
  now destruct (lowerChar_facts c) as [_ [_ [_ ->]]].
Qed.

Lemma lastLabel_lower (h : string) :
  URL.lastLabel (JS.toLowerCase h) = JS.toLowerCase (URL.lastLabel h).
Proof.
  unfold URL.lastLabel, JS.toLowerCase at 1.
  rewrite split_map by (intros c; now destruct (lowerChar_facts c) as [_ [_ [-> _]]]).
  rewrite <- map_rev. fold JS.toLowerCase.
  destruct (List.rev (JS.split "." h)) as [|a [|b l]]; [reflexivity| |].
  - destruct a; reflexivity.
  - destruct a; reflexivity.
Qed.

(** The host parser answers the lower-cased host as it answers the
    host. *)
Lemma plainDomain_lower (h : string) :
  URL.plainDomain h = true -> URL.plainDomain (JS.toLowerCase h) = true.
Proof.
  unfold URL.plainDomain. intros H.
  apply andb_prop in H. destruct H as [H Hdigit].
  apply andb_prop in H. destruct H as [H Hxn].
  apply andb_prop in H. destruct H as [Hne Hchars].
  rewrite lastLabel_lower, startsWithDigit_lower, Hdigit, andb_true_r.
  assert (Hxn' : existsb (fun l => JS.startsWith (JS.toLowerCase l) "xn--")
                   (JS.split "." (JS.toLowerCase h))
                 = existsb (fun l => JS.startsWith (JS.toLowerCase l) "xn--")
                     (JS.split "." h)).
  { unfold JS.toLowerCase at 2.
    rewrite split_map
      by (intros c; now destruct (lowerChar_facts c) as [_ [_ [-> _]]]).
    fold JS.toLowerCase.
    apply (existsb_map_lower (fun x => JS.startsWith x "xn--")). }
  rewrite Hxn', Hxn, andb_true_r.
  apply andb_true_intro. split.
  - destruct h; [discriminate Hne|reflexivity].
  - unfold JS.toLowerCase. rewrite forallChars_map.
    apply (forallChars_impl URL.isDomainChar); [|exact Hchars].
    intros c Hc. now destruct (lowerChar_facts c) as [_ [-> _]].
Qed.

End HostFacts.

Section QueryFacts.

Lemma encodeByte_chars (c : ascii) :
  JS.forallChars
    (fun x => isQueryChar x && negb (Ascii.eqb x "&") && negb (Ascii.eqb x "="))
    (URLSearchParams.encodeByte c) = true.
Proof.
  destruct c as [[] [] [] [] [] [] [] []]; vm_compute; reflexivity.
Qed.

Lemma encode_chars (s : string) :
  JS.forallChars
    (fun x => isQueryChar x && negb (Ascii.eqb x "&") && negb (Ascii.eqb x "="))
    (URLSearchParams.encode s) = true.
Proof.
  induction s as [|c s IH]; [reflexivity|].
  cbn [URLSearchParams.encode]. now rewrite forallChars_app, encodeByte_chars, IH.
Qed.

Lemma encode_query (s : string) :
  JS.forallChars isQueryChar (URLSearchParams.encode s) = true.
Proof.
  apply (forallChars_impl _ _ _ (fun c H => proj1 (andb_prop _ _ (proj1 (andb_prop _ _ H))))
           (encode_chars s)).
Qed.

Lemma encode_no_amp (s : string) :
  JS.forallChars (fun c => negb (Ascii.eqb c "&")) (URLSearchParams.encode s)
  = true.
Proof.
  apply (forallChars_impl _ _ _ (fun c H => proj2 (andb_prop _ _ (proj1 (andb_prop _ _ H))))
           (encode_chars s)).
Qed.

Lemma encode_no_equals (s : string) :
  JS.forallChars (fun c => negb (JS.isChar "=" c)) (URLSearchParams.encode s)
  = true.
Proof.
  apply (forallChars_impl _ _ _ (fun c H => proj2 (andb_prop _ _ H))
           (encode_chars s)).
Qed.

Lemma plusToSpace_app (s t : string) :
  URLSearchParams.plusToSpace (s ++ t)
  = URLSearchParams.plusToSpace s ++ URLSearchParams.plusToSpace t.
Proof.
  unfold URLSearchParams.plusToSpace.
  induction s as [|c s IH]; [reflexivity|].
  cbn [append JS.mapChars]. now rewrite IH.
Qed.

Lemma percentDecode_plain (c : ascii) (r : string) :
  JS.isChar "%" c = false ->
  URLSearchParams.percentDecode (String c r)
  = String c (URLSearchParams.percentDecode r).
Proof. intros H. cbn [URLSearchParams.percentDecode]. now rewrite H. Qed.

Lemma percentDecode_escape (a b : ascii) (r : string) :
  URL.isHexDigit a && URL.isHexDigit b = true ->
  URLSearchParams.percentDecode (String "%" (String a (String b r)))
  = String (ascii_of_nat (16 * URLSearchParams.hexValue a
                          + URLSearchParams.hexValue b))
      (URLSearchParams.percentDecode r).
Proof.
  intros H.
  change (URLSearchParams.percentDecode (String "%" (String a (String b r))))
    with (if URL.isHexDigit a && URL.isHexDigit b
          then String (ascii_of_nat (16 * URLSearchParams.hexValue a
                                     + URLSearchParams.hexValue b))
                 (URLSearchParams.percentDecode r)
          else String "%" (URLSearchParams.percentDecode (String a (String b r)))).
  now rewrite H.
Qed.

(** Decoding undoes the byte serialiser. *)
Lemma decode_encodeByte (c : ascii) (t : string) :
  URLSearchParams.decode (URLSearchParams.encodeByte c ++ t)
  = String c (URLSearchParams.decode t).
Proof.
  unfold URLSearchParams.decode. rewrite plusToSpace_app.
  generalize (URLSearchParams.plusToSpace t). clear t. intros t.
  destruct c as [[] [] [] [] [] [] [] []];
    match goal with
    | |- context [URLSearchParams.plusToSpace ?e] =>
        let x := eval vm_compute in (URLSearchParams.plusToSpace e) in
        change (URLSearchParams.plusToSpace e) with x
    end;
    cbn [append];
    first [rewrite percentDecode_plain by (vm_compute; reflexivity)
          |rewrite percentDecode_escape by (vm_compute; reflexivity)];
    f_equal; vm_compute; reflexivity.
Qed.

Lemma decode_encode (s : string) :
  URLSearchParams.decode (URLSearchParams.encode s) = s.
Proof.
  induction s as [|c s IH]; [reflexivity|].
  cbn [URLSearchParams.encode]. now rewrite decode_encodeByte, IH.
Qed.

Lemma parseSequence_pair (n v : string) :
  URLSearchParams.parseSequence
    (URLSearchParams.encode n ++ String "=" (URLSearchParams.encode v))
  = [(n, v)].
Proof.
  unfold URLSearchParams.parseSequence.
  rewrite (span_app (JS.isChar "=")) by (apply encode_no_equals || reflexivity).
  rewrite !decode_encode.
  destruct (URLSearchParams.encode n); reflexivity.
Qed.

(** The urlencoded parser reads a serialised list back. *)
Lemma parse_serialize (l : list (string * string)) :
  URLSearchParams.parse (URLSearchParams.serialize l) = l.
Proof.
  unfold URLSearchParams.parse.
  induction l as [|[n v] l IH]; [reflexivity|].
  destruct l as [|p l].
  - cbn [URLSearchParams.serialize append].
    rewrite split_none.
    + cbn [flat_map]. now rewrite parseSequence_pair.
    + rewrite forallChars_app, encode_no_amp. cbn [JS.forallChars].
      now rewrite encode_no_amp.
  - change (URLSearchParams.serialize ((n, v) :: p :: l))
      with (URLSearchParams.encode n
            ++ String "=" (URLSearchParams.encode v
                           ++ String "&" (URLSearchParams.serialize (p :: l)))).
    replace (URLSearchParams.encode n
             ++ String "=" (URLSearchParams.encode v
                            ++ String "&" (URLSearchParams.serialize (p :: l))))
      with ((URLSearchParams.encode n ++ String "=" (URLSearchParams.encode v))
            ++ String "&" (URLSearchParams.serialize (p :: l)))
      by (rewrite append_assoc; reflexivity).
    rewrite split_app_sep.
    + cbn [flat_map]. now rewrite parseSequence_pair, IH.
    + rewrite forallChars_app, encode_no_amp. cbn [JS.forallChars].
      now rewrite encode_no_amp.
Qed.

Lemma serialize_chars (l : list (string * string)) :
  JS.forallChars isQueryChar (URLSearchParams.serialize l) = true.
Proof.
  induction l as [|[n v] l IH]; [reflexivity|].
  destruct l as [|p l].
  - cbn [URLSearchParams.serialize append].
    rewrite forallChars_app, encode_query. cbn [JS.forallChars].
    now rewrite encode_query.
  - change (URLSearchParams.serialize ((n, v) :: p :: l))
      with (URLSearchParams.encode n
            ++ String "=" (URLSearchParams.encode v
                           ++ String "&" (URLSearchParams.serialize (p :: l)))).
    rewrite forallChars_app, encode_query. cbn [JS.forallChars].
    rewrite forallChars_app, encode_query. cbn [JS.forallChars].
    now rewrite IH.
Qed.

Lemma serialize_empty (l : list (string * string)) :
  URLSearchParams.serialize l = "" -> l = [].
Proof.
  destruct l as [|[n v] l]; [reflexivity|]. intros H. exfalso.
  apply (f_equal String.length) in H.
  destruct l as [|p l];
    [cbn [URLSearchParams.serialize append] in H
    |change (URLSearchParams.serialize ((n, v) :: p :: l))
       with (URLSearchParams.encode n
             ++ String "=" (URLSearchParams.encode v
                            ++ String "&" (URLSearchParams.serialize (p :: l))))
       in H];
    rewrite length_append in H; cbn [String.length] in H; lia.
Qed.

End QueryFacts.

Section ParserFacts.

Lemma special_scheme (sch rest : string) :
  URL.isSpecialNonFile sch = true ->
  URL.schemeStart ((sch ++ ":") ++ rest) = Some (sch, rest)
  /\ JS.forallChars URL.isPlain (sch ++ ":") = true.
Proof.
  unfold URL.isSpecialNonFile. cbn [existsb]. intros H.
  repeat (apply orb_prop in H;
          destruct H as [H|H];
          [apply String.eqb_eq in H; subst sch; split; reflexivity|]).
  discriminate.
Qed.

Lemma pathChar_intro (c : ascii) :
  URL.isPlain c && negb (JS.oneOf "?#" c) && negb (Ascii.eqb c "/") = true ->
  isPathChar c = true.
Proof.
  destruct c as [[] [] [] [] [] [] [] []]; vm_compute; intros H;
    try discriminate H; reflexivity.
Qed.

Lemma dropSlash_cases (s : string) :
  URL.dropSlash s = s \/ s = String "/" (URL.dropSlash s).
Proof.
  destruct s as [|c s]; [now left|].
  destruct c as [[] [] [] [] [] [] [] []];
    first [left; reflexivity | right; reflexivity].
Qed.

Lemma dropSlash_forall (q : ascii -> bool) (s : string) :
  JS.forallChars q s = true -> JS.forallChars q (URL.dropSlash s) = true.
Proof.
  intros H. destruct (dropSlash_cases s) as [->|Hs]; [exact H|].
  rewrite Hs in H. cbn [JS.forallChars] in H. now apply andb_prop in H.
Qed.

(** The query that the query state collects holds no [#]. *)
Lemma query_chars (r2 : string) :
  JS.forallChars URL.isPlain r2 = true ->
  match
    match r2 with
    | String "?" r3 => Some (fst (JS.span (JS.isChar "#") r3))
    | _ => None
    end
  with
  | Some q => JS.forallChars isQueryChar q = true
  | None => True
  end.
Proof.
  destruct r2 as [|c r3]; [intros _; exact I|].
  cbn [JS.forallChars]. intros H. apply andb_prop in H. destruct H as [_ Hr3].
  destruct (span_parts URL.isPlain (JS.isChar "#") r3 Hr3) as [Hq _].
  clear Hr3.
  destruct c as [[] [] [] [] [] [] [] []]; first [exact I | exact Hq].
Qed.

(** What the parser returns on a modelled input: one of the five
    schemes, a plain domain lower-cased, a path that serialises
    segments, and a query without [#]. *)
Lemma parse_parts (u : string) (p : URL.t) :
  URL.parse u = URL.Parsed p ->
  exists (sch h : string) (segs : list string),
    URL.isSpecialNonFile sch = true /\ URL.plainDomain h = true
    /\ segs <> [] /\ forallb isSegment segs = true
    /\ URL.protocol p = sch ++ ":"
    /\ URL.hostname p = JS.toLowerCase h
    /\ URL.pathname p = URL.serializePath segs
    /\ match URL.query p with
       | Some q => JS.forallChars isQueryChar q = true
       | None => True
       end.
Proof.
  unfold URL.parse. cbv zeta.
  destruct (URL.schemeStart (URL.removeTabNewline (URL.trimC0Space u)))
    as [[sch rest]|]; [|discriminate].
  destruct (URL.isSpecialNonFile sch && JS.forallChars URL.isPlain rest)
    eqn:Hcond; [|discriminate].
  apply andb_prop in Hcond. destruct Hcond as [Hsch Hrest].
  pose proof (span_parts URL.isPlain (JS.oneOf "/?#") _
                (dropWhile_forall URL.isPlain (JS.isChar "/") rest Hrest))
    as [_ Hr1].
  destruct (JS.span (JS.oneOf "/?#") (JS.dropWhile (JS.isChar "/") rest))
    as [authority r1].
  cbn [snd] in Hr1.
  destruct (URL.afterCredentials authority) as [hostport|]; [|discriminate].
  destruct (JS.span (JS.isChar ":") hostport) as [h port].
  pose proof (span_parts URL.isPlain (JS.oneOf "?#") r1 Hr1) as [Hpath Hr2].
  destruct (JS.span (JS.oneOf "?#") r1) as [pathPart r2].
  cbn [fst snd] in Hpath, Hr2.
  destruct (String.eqb h ""); [discriminate|].
  destruct (URL.plainDomain h) eqn:Hdomain; cbn [negb]; [|discriminate].
  destruct (URL.portOk (URL.dropColon port)); cbn [negb]; [|discriminate].
  intros Hp. injection Hp as <-.
  exists sch, h, (URL.pathState (JS.split "/" (URL.dropSlash pathPart)) []).
  split; [exact Hsch|]. split; [exact Hdomain|].
  split; [apply pathState_nonempty, split_nonempty|].
  split.
  { apply pathState_segments; [|reflexivity].
    pose proof (split_pieces _ "/" _ (dropSlash_forall _ _ Hpath)) as Hpieces.
    rewrite forallb_forall in *. intros seg Hin.
    apply (forallChars_impl _ _ _ pathChar_intro (Hpieces seg Hin)). }
  cbn [URL.protocol URL.hostname URL.pathname URL.query].
  repeat (split; [reflexivity|]).
  exact (query_chars r2 Hr2).
Qed.

Lemma dropWhile_head (p : ascii -> bool) (c : ascii) (s : string) :
  p c = false -> JS.dropWhile p (String c s) = String c s.
Proof. intros H. cbn [JS.dropWhile]. now rewrite H. Qed.

(** The parser reads a URL written in canonical form as it is
    written. *)
Lemma parse_canonical (sch h : string) (segs : list string) (q : string) :
  URL.isSpecialNonFile sch = true ->
  URL.plainDomain h = true ->
  segs <> [] ->
  forallb isSegment segs = true ->
  JS.forallChars isQueryChar q = true ->
  URL.parse ((sch ++ ":") ++ "//" ++ JS.toLowerCase h
             ++ URL.serializePath segs ++ searchText q)
  = URL.Parsed {| URL.protocol := sch ++ ":";
                  URL.hostname := JS.toLowerCase h;
                  URL.pathname := URL.serializePath segs;
                  URL.query := queryOf q |}.
Proof.
  intros Hsch Hdomain Hne Hsegs Hq.
  pose proof (plainDomain_lower h Hdomain) as Hlower.
  assert (Hhost : JS.toLowerCase h <> ""
                  /\ JS.forallChars URL.isDomainChar (JS.toLowerCase h) = true).
  { unfold URL.plainDomain in Hlower.
    apply andb_prop in Hlower. destruct Hlower as [Hl _].
    apply andb_prop in Hl. destruct Hl as [Hl _].
    apply andb_prop in Hl. destruct Hl as [Hl1 Hl2]. split; [|exact Hl2].
    intros Heq. rewrite Heq in Hl1. discriminate. }
  destruct Hhost as [Hnonempty Hchars].
  remember (JS.toLowerCase h) as host eqn:Hhost.
  destruct segs as [|seg segs]; [contradiction|].
  pose proof (segments_chars _ Hsegs) as Hsegchars.
  remember (URL.serializePath (seg :: segs)) as path eqn:Hpath.
  assert (Hslash : path = String "/" (seg ++ URL.serializePath segs))
    by now subst path.
  assert (Hpathplain : JS.forallChars URL.isPlain path = true).
  { subst path. apply serializePath_chars; [reflexivity|].
    rewrite forallb_forall in *. intros x Hin.
    apply (forallChars_impl isPathChar); [|now apply Hsegchars].
    intros c Hc. now destruct (pathChar c Hc). }
  assert (Hpathq : JS.forallChars (fun c => negb (JS.oneOf "?#" c)) path = true).
  { subst path. apply serializePath_chars; [reflexivity|].
    rewrite forallb_forall in *. intros x Hin.
    apply (forallChars_impl isPathChar); [|now apply Hsegchars].
    intros c Hc. now destruct (pathChar c Hc) as [_ [_ ->]]. }
  assert (Hsearch : JS.forallChars URL.isPlain (searchText q) = true).
  { destruct q as [|c q]; [reflexivity|].
    change (searchText (String c q)) with (String "?" (String c q)).
    change (JS.forallChars URL.isPlain (String c q) = true).
    apply (forallChars_impl isQueryChar); [|exact Hq].
    intros x Hx. unfold isQueryChar in Hx. now apply andb_prop in Hx. }
  assert (Hrest : JS.forallChars URL.isPlain
                    ("//" ++ host ++ path ++ searchText q) = true).
  { cbn [append JS.forallChars]. rewrite !forallChars_app, Hpathplain, Hsearch.
    rewrite (forallChars_impl URL.isDomainChar URL.isPlain host); [reflexivity| |exact Hchars].
    intros c Hc. now destruct (domain_char c Hc). }
  destruct (special_scheme sch ("//" ++ host ++ path ++ searchText q) Hsch)
    as [Hscheme Hschplain].
  unfold URL.parse.
  rewrite plain_not_trimmed by now rewrite forallChars_app, Hschplain, Hrest.
  rewrite Hscheme. cbv zeta. rewrite Hsch, Hrest. cbn [andb].
  assert (Hdrop : JS.dropWhile (JS.isChar "/") ("//" ++ host ++ path ++ searchText q)
                  = host ++ path ++ searchText q).
  { cbn [append]. destruct host as [|c host]; [contradiction|].
    cbn [JS.forallChars] in Hchars. apply andb_prop in Hchars.
    destruct Hchars as [Hc _]. destruct (domain_char c Hc) as [_ [_ [_ [_ Hns]]]].
    change (JS.dropWhile (JS.isChar "/") (String "/" (String "/" (String c host ++ path ++ searchText q))))
      with (JS.dropWhile (JS.isChar "/") (String c (host ++ path ++ searchText q))).
    now apply dropWhile_head. }
  rewrite Hdrop.
  rewrite (span_app (JS.oneOf "/?#") host (path ++ searchText q)).
  2:{ apply (forallChars_impl URL.isDomainChar); [|exact Hchars].
      intros c Hc. now destruct (domain_char c Hc) as [_ [-> _]]. }
  2:{ rewrite Hslash. reflexivity. }
  assert (Hcred : URL.afterCredentials host = Some host).
  { unfold URL.afterCredentials.
    rewrite split_none; [cbn [List.rev app]; now destruct host|].
    apply (forallChars_impl URL.isDomainChar); [|exact Hchars].
    intros c Hc. now destruct (domain_char c Hc) as [_ [_ [-> _]]]. }
  rewrite Hcred.
  rewrite (span_none (JS.isChar ":") host).
  2:{ apply (forallChars_impl URL.isDomainChar); [|exact Hchars].
      intros c Hc. now destruct (domain_char c Hc) as [_ [_ [_ [-> _]]]]. }
  rewrite (span_app (JS.oneOf "?#") path (searchText q) Hpathq).
  2:{ destruct q; [exact I|reflexivity]. }
  assert (Hnot : String.eqb host "" = false) by now apply String.eqb_neq.
  rewrite Hnot, Hlower.
  replace (URL.portOk (URL.dropColon "")) with true by reflexivity.
  cbn [negb]. f_equal. f_equal.
  - subst host. apply toLowerCase_idem.
  - rewrite Hslash at 1.
    change (URL.dropSlash (String "/" (seg ++ URL.serializePath segs)))
      with (seg ++ URL.serializePath segs).
    rewrite split_serializePath by exact Hsegchars.
    rewrite pathState_plain by exact Hsegs. now subst path.
  - destruct q as [|c q]; [reflexivity|].
    change (searchText (String c q)) with (String "?" (String c q)).
    cbv iota beta.
    rewrite (span_none (JS.isChar "#") (String c q)); [reflexivity|].
    apply (forallChars_impl isQueryChar); [|exact Hq].
    intros x Hx. unfold isQueryChar in Hx. now apply andb_prop in Hx.
Qed.

End ParserFacts.

(** ** Idempotence of the canonical URL *)

Section IdempotenceFacts.

Variable beyond : string -> option URLObject.

(** A page among the modelled inputs is parsed the same way on every
    platform. *)
Lemma webURL_newURL (page : string) (o : URLObject) :
  webURL page = Some o ->
  newURL beyond page = Some o
  /\ URL.parse page = URL.Parsed (url o)
  /\ searchParams o = match URL.query (url o) with
                      | Some q => URLSearchParams.parse q
                      | None => []
                      end
  /\ URLSearchParams.asciiOnly (searchParams o) = true.
Proof.
  unfold webURL, newURL. destruct (URL.parse page) as [|p|]; try discriminate.
  cbv zeta.
  destruct (URLSearchParams.asciiOnly
              match URL.query p with
              | Some q => URLSearchParams.parse q
              | None => []
              end) eqn:Hascii; [|discriminate].
  intros H. injection H as <-. cbn [url searchParams]. now repeat split.
Qed.

Lemma forEachFrom_sublist :
  forall (fuel i : nat) (o : URLObject),
    incl (searchParams (forEachFrom fuel i dropUtm o)) (searchParams o).
Proof.
  induction fuel as [|fuel IH]; intros i o; [apply incl_refl|].
  cbn [forEachFrom].
  destruct (nth_error (searchParams o) i) as [[key value]|]; [|apply incl_refl].
  eapply incl_tran; [apply IH|]. unfold dropUtm.
  destruct (JS.startsWith (JS.toLowerCase key) "utm_"); [|apply incl_refl].
  cbn [searchParams_delete searchParams]. intros p Hin.
  now apply filter_In in Hin.
Qed.

Lemma searchOf_text (l : list (string * string)) :
  searchOf l = searchText (URLSearchParams.serialize l).
Proof. unfold searchOf, searchText. now destruct (URLSearchParams.serialize l). Qed.

(** After the [forEach], the URL's search is that of a query which
    parses to the list that is left. *)
Lemma forEach_search (o : URLObject) :
  searchParams o = match URL.query (url o) with
                   | Some q => URLSearchParams.parse q
                   | None => []
                   end ->
  match URL.query (url o) with
  | Some q => JS.forallChars isQueryChar q = true
  | None => True
  end ->
  exists qt : string,
    JS.forallChars isQueryChar qt = true
    /\ URL.search (url (searchParams_forEach dropUtm o)) = searchText qt
    /\ URLSearchParams.parse qt = searchParams (searchParams_forEach dropUtm o).
Proof.
  intros Hparams Hquery. unfold searchParams_forEach.
  destruct (forEachFrom_query (List.length (searchParams o)) 0 o)
    as [Hsame|Hsync].
  - rewrite Hsame. unfold URL.search.
    destruct (URL.query (url o)) as [q|].
    + exists q. split; [exact Hquery|]. split; [now destruct q|now symmetry].
    + exists "". split; [reflexivity|]. split; [reflexivity|now symmetry].
  - exists (URLSearchParams.serialize
              (searchParams
                 (forEachFrom (List.length (searchParams o)) 0 dropUtm o))).
    split; [apply serialize_chars|].
    split; [now rewrite Hsync, searchOf_text|apply parse_serialize].
Qed.

Lemma strip_settled (path : string) :
  path = "/" \/ JS.endsWithSlash path = false ->
  stripTrailingSlash path = path.
Proof.
  unfold stripTrailingSlash. intros [-> | ->]; [reflexivity|].
  now rewrite andb_false_r.
Qed.

Lemma search_queryOf (protocol hostname pathname q : string) :
  URL.search {| URL.protocol := protocol; URL.hostname := hostname;
                URL.pathname := pathname; URL.query := queryOf q |}
  = searchText q.
Proof. now destruct q. Qed.

Lemma params_queryOf (q : string) :
  match queryOf q with
  | Some q' => URLSearchParams.parse q'
  | None => []
  end = URLSearchParams.parse q.
Proof. now destruct q. Qed.

(** The canonical URL of a page among the modelled inputs, once no
    [utm_] parameter is left and the path has no slash left to lose,
    is its own canonical URL. *)
Lemma canonicalUrl_settled (page : string) (o : URLObject) :
  webURL page = Some o ->
  forallb nonUtm (searchParams (searchParams_forEach dropUtm o)) = true ->
  stripTrailingSlash (URL.pathname (url o)) = "/"
  \/ JS.endsWithSlash (stripTrailingSlash (URL.pathname (url o))) = false ->
  canonicalUrl beyond (canonicalUrl beyond page) = canonicalUrl beyond page.
Proof.
  intros Hweb Hutm Hslash.
  destruct (webURL_newURL page o Hweb) as [Hnew [Hparse [Hparams Hascii]]].
  destruct (parse_parts _ _ Hparse)
    as [sch [h [segs [Hsch [Hdomain [Hne [Hsegs [Hprotocol [Hhost [Hpath Hquery]]]]]]]]]].
  destruct (forEach_search o Hparams Hquery) as [qt [Hqt [Hsearch Hlist]]].
  destruct (strip_serializePath segs Hne Hsegs) as [segs' [Hne' [Hsegs' Hstrip]]].
  rewrite Hpath, Hstrip in Hslash.
  assert (Hout : canonicalUrl beyond page
                 = (sch ++ ":") ++ "//" ++ JS.toLowerCase h
                   ++ URL.serializePath segs' ++ searchText qt).
  { unfold canonicalUrl. rewrite Hnew.
    destruct (forEachFrom_keeps_others (List.length (searchParams o)) 0 o)
      as [_ [Hp [Hh Hn]]].
    fold (searchParams_forEach dropUtm o) in Hp, Hh, Hn.
    rewrite Hp, Hh, Hn. fold (stripTrailingSlash (URL.pathname (url o))).
    now rewrite Hprotocol, Hhost, Hpath, Hstrip, toLowerCase_idem, Hsearch. }
  rewrite Hout.
  pose proof (parse_canonical sch h segs' qt Hsch Hdomain Hne' Hsegs' Hqt)
    as Hparse2.
  assert (Hascii2 : URLSearchParams.asciiOnly
                      (searchParams (searchParams_forEach dropUtm o)) = true).
  { unfold URLSearchParams.asciiOnly in *. rewrite forallb_forall in *.
    intros p Hin. apply Hascii.
    exact (forEachFrom_sublist _ _ _ p Hin). }
  unfold canonicalUrl, newURL. rewrite Hparse2. cbv zeta.
  cbn [URL.query]. rewrite params_queryOf, Hlist, Hascii2.
  match goal with
  | |- context [searchParams_forEach dropUtm ?o2] =>
      replace (searchParams_forEach dropUtm o2) with o2
        by (symmetry; apply forEachFrom_nothing_to_drop; exact Hutm)
  end.
  cbn [url URL.protocol URL.hostname URL.pathname].
  fold (stripTrailingSlash (URL.serializePath segs')).
  now rewrite toLowerCase_idem, (strip_settled _ Hslash), search_queryOf.
Qed.

(** The first pass leaves no [utm_] parameter when none of them
    directly follows another one. *)
Lemma forEach_settles (o : URLObject) :
  noAdjacentUtm (searchParams o) = true ->
  forallb nonUtm (searchParams (searchParams_forEach dropUtm o)) = true.
Proof.
  intros Hadj. unfold searchParams_forEach.
  rewrite forEachFrom_drops_all by (reflexivity || exact Hadj || lia).
  apply forallb_forall. intros p Hin. now apply filter_In in Hin.
Qed.

End IdempotenceFacts.



(** X15.  For a page among the modelled web URLs in which no [utm_]
    parameter directly follows another one, and whose path does not
    end in two slashes (["//"] itself apart), a second application of
    the canonical URL changes nothing. *)
Theorem canonicalUrl_idempotent_web :
  forall (beyond : string -> option URLObject) (page : string) (o : URLObject),
    webURL page = Some o ->
    noAdjacentUtm (searchParams o) = true ->
    stripTrailingSlash (URL.pathname (url o)) = "/"
    \/ JS.endsWithSlash (stripTrailingSlash (URL.pathname (url o))) = false ->
    canonicalUrl beyond (canonicalUrl beyond page) = canonicalUrl beyond page.
Proof.
  intros beyond page o Hweb Hadj Hslash.
  apply (canonicalUrl_settled beyond page o Hweb); [|exact Hslash].
  now apply forEach_settles.
Qed.

Lemma canonicalUrl_idempotent_web_witness :
  canonicalUrl Mock.noURL
    (canonicalUrl Mock.noURL
       "http://Example.com//docs/?utm_source=a&q=%41+b&utm_medium=c#top")
  = canonicalUrl Mock.noURL
      "http://Example.com//docs/?utm_source=a&q=%41+b&utm_medium=c#top".
Proof.
  apply (canonicalUrl_idempotent_web Mock.noURL _
           {| url := {| URL.protocol := "http:";
                        URL.hostname := "example.com";
                        URL.pathname := "//docs/";
                        URL.query := Some "utm_source=a&q=%41+b&utm_medium=c" |};
              searchParams := [("utm_source", "a"); ("q", "A b");
                               ("utm_medium", "c")] |}).
  - vm_compute. reflexivity.
  - vm_compute. reflexivity.
  - right. vm_compute. reflexivity.
Defined.

(** ** The dates of a range *)

Section CalendarFacts.

Variable Date_step : Z -> positive.
Hypothesis day24 : forall dt : Z, Date_step dt = 86400000%positive.

Lemma visits_calendar (end_ : Z) :
  forall (n : nat) (start : Z),
    (start + Z.of_nat n * 86400000 <= end_)%Z ->
    (end_ < start + Z.of_nat (S n) * 86400000)%Z ->
    Visits Date_step end_ start
      (map (fun k => (start + Z.of_nat k * 86400000)%Z) (seq 0 (S n))).
Proof.
  induction n as [|n IH]; intros start Hle Hlt.
  - cbn [seq map]. replace (start + Z.of_nat 0 * 86400000)%Z with start by lia.
    apply VisitsDay; [lia|]. apply VisitsDone.
    unfold Date_nextDay. rewrite day24. lia.
  - change (seq 0 (S (S n))) with (0%nat :: seq 1 (S n)).
    cbn [map]. replace (start + Z.of_nat 0 * 86400000)%Z with start by lia.
    apply VisitsDay; [lia|].
    rewrite <- seq_shift, map_map.
    replace (map (fun k => (start + Z.of_nat (S k) * 86400000)%Z) (seq 0 (S n)))
      with (map (fun k => (Date_nextDay Date_step start
                           + Z.of_nat k * 86400000)%Z) (seq 0 (S n))).
    + apply IH; unfold Date_nextDay; rewrite day24; lia.
    + apply map_ext. intros k. unfold Date_nextDay. rewrite day24. lia.
Qed.

Lemma visits_calendarDays (start end_ : Z) :
  (start <= end_)%Z ->
  Visits Date_step end_ start (calendarDays start end_).
Proof.
  intros Hle. unfold calendarDays. apply visits_calendar.
  - rewrite Z2Nat.id by (apply Z.div_pos; lia).
    pose proof (Z.mul_div_le (end_ - start) 86400000). lia.
  - rewrite Nat2Z.inj_succ, Z2Nat.id by (apply Z.div_pos; lia).
    pose proof (Z.mul_succ_div_gt (end_ - start) 86400000). lia.
Qed.

End CalendarFacts.

(** A local day of 25 hours inside the range: the loop does not reach
    the last day, 2023-01-03. *)
Example visits_skip_last_day :
  Visits Mock.dstStep (19360 * Mock.msPerDay) (19358 * Mock.msPerDay)
    [19358 * Mock.msPerDay; 19359 * Mock.msPerDay]%Z.
Proof.
  apply VisitsDay; [vm_compute; discriminate|].
  apply VisitsDay; [vm_compute; discriminate|].
  apply VisitsDone. vm_compute. reflexivity.
Qed.

(** X16.  In a process whose local days all have 24 hours, as under
    [TZ=UTC], the orchestrator processes the days of the range from
    the start date to the end date, 24 hours apart, in order, each
    from the state that the one before it left, and returns the sum
    of what they wrote. *)
Theorem ingest_calendar_days :
  forall (beyond : string -> option URLObject)
         (Client ApiError : Type)
         (query : Client -> Request -> QueryOutcome ApiError * Client)
         (Store StoreError : Type)
         (commit : Store -> list GscFirestoreDoc -> option StoreError * Store)
         (Date_parse : string -> option Z) (Date_isoDay : Z -> string)
         (Date_step : Z -> positive)
         (days fuel : nat) (w w' : World Client Store)
         (site startDate endDate : string) (start end_ : Z)
         (outcomes : list (DayOutcome StoreError)),
    site <> "" -> startDate <> "" -> endDate <> "" ->
    Date_parse startDate = Some start ->
    Date_parse endDate = Some end_ ->
    (forall dt : Z, Date_step dt = 86400000%positive) ->
    (start <= end_)%Z ->
    dayOutcomes beyond Client ApiError query Store StoreError commit
      Date_isoDay fuel site (calendarDays start end_) w
    = Some (outcomes, w') ->
    (Z.to_nat ((end_ - start) / 86400000) < days)%nat ->
    ingestGSCData beyond Client ApiError query Store StoreError commit
      Date_parse Date_isoDay Date_step days fuel w site startDate endDate
    = Some ({| success := true; totalRowsWritten := sumRows outcomes |}, w').
Proof.
  intros beyond Client ApiError query Store StoreError commit
    Date_parse Date_isoDay Date_step days fuel w w' site startDate endDate
    start end_ outcomes Hs Hsd Hed Hps Hpe Hday Hle Hout Hdays.
  unfold ingestGSCData.
  apply String.eqb_neq in Hs, Hsd, Hed.
  rewrite Hs, Hsd, Hed, Hps, Hpe. cbn [orb].
  rewrite (ingestLoop_outcomes beyond Client ApiError query Store StoreError
             commit Date_isoDay Date_step fuel site end_ start
             (calendarDays start end_)
             (visits_calendarDays Date_step Hday start end_ Hle)
             days w w' 0%Z outcomes Hout); [reflexivity|].
  unfold calendarDays. rewrite length_map, length_seq. lia.
Qed.

Lemma ingest_calendar_days_witness :
  ingestGSCData Mock.noURL Mock.Client string Mock.scripted
    (list (list GscFirestoreDoc)) string Mock.accepting
    Mock.parseDay Mock.isoDay Mock.utcStep 2 7
    {| gscClient :=
         [Resolved (Some [Mock.pageRow "https://example.com/a"]);
          Resolved (Some [Mock.pageRow "https://example.com/b";
                          Mock.pageRow "https://example.com/c"])];
       db := [] |}
    "sc-domain:example.com" "2023-01-30" "2023-01-31"
  = Some ({| success := true; totalRowsWritten := 3 |},
          {| gscClient := [];
             db := [[normalizeRow Mock.noURL (Mock.pageRow "https://example.com/a")
                       "sc-domain:example.com" "2023-01-30"];
                    [normalizeRow Mock.noURL (Mock.pageRow "https://example.com/b")
                       "sc-domain:example.com" "2023-01-31";
                     normalizeRow Mock.noURL (Mock.pageRow "https://example.com/c")
                       "sc-domain:example.com" "2023-01-31"]] |}).
Proof.
  apply (ingest_calendar_days Mock.noURL Mock.Client string Mock.scripted
           (list (list GscFirestoreDoc)) string Mock.accepting
           Mock.parseDay Mock.isoDay Mock.utcStep 2 7 _ _
           "sc-domain:example.com" "2023-01-30" "2023-01-31"
           (19387 * Mock.msPerDay)%Z (19388 * Mock.msPerDay)%Z
           [DayWritten 1; DayWritten 2]);
    try discriminate; try reflexivity.
  vm_compute. lia.
Defined.

Section TerminationFacts.

Variable beyond : string -> option URLObject.
Variable Client : Type.
Variable ApiError : Type.
Variable query : Client -> Request -> QueryOutcome ApiError * Client.
Variable Store : Type.
Variable StoreError : Type.
Variable commit : Store -> list GscFirestoreDoc -> option StoreError * Store.
Variable Date_isoDay : Z -> string.
Variable Date_step : Z -> positive.

Variable shortest : Z.
Hypothesis shortest_pos : (0 < shortest)%Z.
Hypothesis steps_long : forall dt : Z, (shortest <= Z.pos (Date_step dt))%Z.


End TerminationFacts.


